(** * A notebook of memos: shallow embedding of [lab3_6.py]

    The module keeps a process-wide counter [last_id], a class [Note], a class
    [Notebook] owning a list of notes, and an interactive [Menu].  Python
    objects are mutable and shared by reference, so notes and notebooks live
    in a store indexed by references, and every method is a computation over
    the state of the process.  The handlers of the menu are embedded; its
    loop [run], [display_menu] and [quit] are not needed by the properties
    below. *)

From stdpp Require Import base gmap list strings pretty.

Local Open Scope Z_scope.

(** ** Values *)

(** The [tags] attribute holds whatever the caller passed: a string (the
    constructor's default [''] and what the menu reads) or a list of labels
    (as in the doctest of [modify_tags]). *)
Inductive Tags :=
  | TagsStr (s : string)
  | TagsList (l : list string).

(** What callers pass as [note_id]: the integer taken from a note, or the
    line typed at the menu. *)
Inductive IdArg :=
  | IdInt (z : Z)
  | IdStr (s : string).

(** [datetime.date] *)
Record date := Date { year : Z; month : Z; day : Z }.

Record Note := mkNote {
  memo : string;
  tags : Tags;
  creation_date : date;
  id : Z
}.

(** References to objects. *)
Definition loc := positive.

Record Menu := mkMenu { notebook : loc }.

(** ** State of the process *)

Record World := mkWorld {
  last_id : Z;                          (* the module-level counter *)
  today : date;                         (* what [datetime.date.today()] answers *)
  note_heap : gmap loc Note;            (* the [Note] objects *)
  notebook_heap : gmap loc (list loc);  (* [Notebook] objects: their [notes] list *)
  stdin : list string;                  (* lines still to be read *)
  stdout : string                       (* everything written so far *)
}.

Definition set_last_id (k : Z) (w : World) : World :=
  mkWorld k (today w) (note_heap w) (notebook_heap w) (stdin w) (stdout w).
Definition set_today (d : date) (w : World) : World :=
  mkWorld (last_id w) d (note_heap w) (notebook_heap w) (stdin w) (stdout w).
Definition set_note_heap (h : gmap loc Note) (w : World) : World :=
  mkWorld (last_id w) (today w) h (notebook_heap w) (stdin w) (stdout w).
Definition set_notebook_heap (h : gmap loc (list loc)) (w : World) : World :=
  mkWorld (last_id w) (today w) (note_heap w) h (stdin w) (stdout w).
Definition set_stdin (i : list string) (w : World) : World :=
  mkWorld (last_id w) (today w) (note_heap w) (notebook_heap w) i (stdout w).
Definition set_stdout (o : string) (w : World) : World :=
  mkWorld (last_id w) (today w) (note_heap w) (notebook_heap w) (stdin w) o.

(** The process as it starts: [last_id = 0], no object yet. *)
Definition init_world (d : date) (input : list string) : World :=
  mkWorld 0 d ∅ ∅ input "".

(** ** Computations *)

Inductive exn :=
  | EOFError   (* [input()] at the end of the input *)
  | Stuck.     (* a reference to no object: no Python program gets there *)

Inductive result (A : Type) :=
  | Ok (a : A) (w : World)
  | Raise (e : exn).
Arguments Ok {A} a w.
Arguments Raise {A} e.

Definition M (A : Type) : Type := World → result A.

Definition ret {A} (a : A) : M A := λ w, Ok a w.
Definition bind {A B} (m : M A) (k : A → M B) : M B := λ w,
  match m w with
  | Ok a w' => k a w'
  | Raise e => Raise e
  end.

Declare Scope comp_scope.
Delimit Scope comp_scope with comp.
Bind Scope comp_scope with M.
Notation "x ← y ; z" := (bind y (λ x, z))
  (at level 20, y at level 100, z at level 200, only parsing) : comp_scope.
Local Open Scope comp_scope.

Definition get_last_id : M Z := λ w, Ok (last_id w) w.
Definition put_last_id (k : Z) : M unit := λ w, Ok tt (set_last_id k w).
Definition date_today : M date := λ w, Ok (today w) w.

Definition get_note (l : loc) : M Note := λ w,
  match note_heap w !! l with
  | Some n => Ok n w
  | None => Raise Stuck
  end.
Definition put_note (l : loc) (n : Note) : M unit := λ w,
  Ok tt (set_note_heap (<[l := n]> (note_heap w)) w).
Definition alloc_note (n : Note) : M loc := λ w,
  let l := fresh (dom (note_heap w)) in
  Ok l (set_note_heap (<[l := n]> (note_heap w)) w).

Definition get_notes (nb : loc) : M (list loc) := λ w,
  match notebook_heap w !! nb with
  | Some ns => Ok ns w
  | None => Raise Stuck
  end.
Definition put_notes (nb : loc) (ns : list loc) : M unit := λ w,
  Ok tt (set_notebook_heap (<[nb := ns]> (notebook_heap w)) w).
Definition alloc_notebook (ns : list loc) : M loc := λ w,
  let nb := fresh (dom (notebook_heap w)) in
  Ok nb (set_notebook_heap (<[nb := ns]> (notebook_heap w)) w).

(** ** Built-ins *)

Definition nl : string := String (Ascii.ascii_of_nat 10) "".

(** [input(prompt)]: writes the prompt, reads one line. *)
Definition input (prompt : string) : M string := λ w,
  match stdin w with
  | [] => Raise EOFError
  | line :: rest => Ok line (set_stdin rest (set_stdout (stdout w +:+ prompt) w))
  end.

(** [print(s)] *)
Definition print (s : string) : M unit := λ w,
  Ok tt (set_stdout (stdout w +:+ s +:+ nl) w).

(** [str(k)] of an integer: its decimal numeral. *)
Definition str_int (k : Z) : string := pretty k.

(** [str(note_id)] *)
Definition py_str (v : IdArg) : string :=
  match v with
  | IdInt k => str_int k
  | IdStr s => s
  end.

(** [p] starts [s] *)
Fixpoint str_startswith (s p : string) {struct p} : bool :=
  match p, s with
  | EmptyString, _ => true
  | String _ _, EmptyString => false
  | String a p', String b s' => Ascii.eqb a b && str_startswith s' p'
  end.

(** [x in s] on strings: [x] occurs in [s] at some position. *)
Fixpoint str_contains (s x : string) : bool :=
  str_startswith s x ||
  match s with
  | EmptyString => false
  | String _ s' => str_contains s' x
  end.

(** [x in l] on a list of strings: some element equals [x]. *)
Definition list_contains (l : list string) (x : string) : bool :=
  existsb (String.eqb x) l.

(** [x in tags] *)
Definition tags_contains (t : Tags) (x : string) : bool :=
  match t with
  | TagsStr s => str_contains s x
  | TagsList l => list_contains l x
  end.

(** Truth value of a string, of an optional list. *)
Definition str_truthy (s : string) : bool :=
  match s with EmptyString => false | _ => true end.
Definition notes_truthy (o : option (list loc)) : bool :=
  match o with
  | None | Some [] => false
  | Some (_ :: _) => true
  end.

(** ** class Note *)

(** [Note(memo, tags)]: [__init__] on a new object. *)
Definition Note_init (memo0 : string) (tags0 : Tags) : M loc :=
  d ← date_today;
  k ← get_last_id;
  _ ← put_last_id (k + 1);
  k' ← get_last_id;
  alloc_note (mkNote memo0 tags0 d k').

Definition note_matches (n : Note) (flt : string) : bool :=
  str_contains (memo n) flt || tags_contains (tags n) flt.

Definition Note_match (self : loc) (flt : string) : M bool :=
  n ← get_note self;
  ret (note_matches n flt).

(** ** class Notebook *)

Definition Notebook_init : M loc := alloc_notebook [].

Definition Notebook_new_note (self : loc) (memo0 : string) (tags0 : Tags) : M unit :=
  ns ← get_notes self;
  n ← Note_init memo0 tags0;
  put_notes self (ns ++ [n]).

(** The comprehension [[note for note in notes if note.match(filter)]]. *)
Fixpoint search_loop (ns : list loc) (flt : string) : M (list loc) :=
  match ns with
  | [] => ret []
  | note :: rest =>
      b ← Note_match note flt;
      r ← search_loop rest flt;
      ret (if b then note :: r else r)
  end.

Definition Notebook_search (self : loc) (flt : string) : M (list loc) :=
  ns ← get_notes self;
  search_loop ns flt.

(** The loop of [_find_note]. *)
Fixpoint find_note_loop (ns : list loc) (note_id : IdArg) : M (option loc) :=
  match ns with
  | [] => ret None
  | note :: rest =>
      n ← get_note note;
      if String.eqb (str_int (id n)) (py_str note_id)
      then ret (Some note)
      else find_note_loop rest note_id
  end.

Definition Notebook__find_note (self : loc) (note_id : IdArg) : M (option loc) :=
  ns ← get_notes self;
  find_note_loop ns note_id.

Definition with_memo (v : string) (n : Note) : Note :=
  mkNote v (tags n) (creation_date n) (id n).
Definition with_tags (v : Tags) (n : Note) : Note :=
  mkNote (memo n) v (creation_date n) (id n).

Definition Notebook_modify_memo (self : loc) (note_id : IdArg) (memo0 : string) : M bool :=
  o ← Notebook__find_note self note_id;
  match o with
  | Some note =>
      n ← get_note note;
      _ ← put_note note (with_memo memo0 n);
      ret true
  | None => ret false
  end.

Definition Notebook_modify_tags (self : loc) (note_id : IdArg) (tags0 : Tags) : M bool :=
  o ← Notebook__find_note self note_id;
  match o with
  | Some note =>
      n ← get_note note;
      _ ← put_note note (with_tags tags0 n);
      ret true
  | None => ret false
  end.

(** ** class Menu *)

Definition Menu_init : M Menu :=
  nb ← Notebook_init;
  ret (mkMenu nb).

Section Rendering.

(** [repr] of a string, the built-in that [str] of a list applies to each
    element. *)
Variable repr_str : string → string.

Fixpoint join (sep : string) (l : list string) : string :=
  match l with
  | [] => ""
  | [x] => x
  | x :: rest => x +:+ sep +:+ join sep rest
  end.

(** [str(tags)] *)
Definition str_tags (t : Tags) : string :=
  match t with
  | TagsStr s => s
  | TagsList l => "[" +:+ join ", " (map repr_str l) +:+ "]"
  end.

(** ["{0}: {1}\n{2}".format(note.id, note.tags, note.memo)] *)
Definition format_note (n : Note) : string :=
  str_int (id n) +:+ ": " +:+ str_tags (tags n) +:+ nl +:+ memo n.

Fixpoint show_loop (ns : list loc) : M unit :=
  match ns with
  | [] => ret tt
  | note :: rest =>
      n ← get_note note;
      _ ← print (format_note n);
      show_loop rest
  end.

Definition Menu_show_notes (self : Menu) (notes : option (list loc)) : M unit :=
  ns ← (if negb (notes_truthy notes)
        then get_notes (notebook self)
        else ret (default [] notes));
  show_loop ns.

Definition Menu_search_notes (self : Menu) : M unit :=
  flt ← input "Search for: ";
  notes ← Notebook_search (notebook self) flt;
  Menu_show_notes self (Some notes).

End Rendering.

Definition Menu_add_note (self : Menu) : M unit :=
  memo0 ← input "Enter a memo: ";
  _ ← Notebook_new_note (notebook self) memo0 (TagsStr "");
  print "Your note has been added.".

Definition Menu_modify_note (self : Menu) : M unit :=
  id0 ← input "Enter a note id: ";
  memo0 ← input "Enter a memo: ";
  tags0 ← input "Enter tags: ";
  _ ← (if str_truthy memo0
       then _ ← Notebook_modify_memo (notebook self) (IdStr id0) memo0; ret tt
       else ret tt);
  if str_truthy tags0
  then _ ← Notebook_modify_tags (notebook self) (IdStr id0) (TagsStr tags0); ret tt
  else ret tt.

(** ** Vocabulary of the properties *)

(** Every reference of a list designates a note of the store. *)
Definition notes_alloc (w : World) (ns : list loc) : Prop :=
  Forall (λ l, is_Some (note_heap w !! l)) ns.

(** The note behind [l] matches the filter. *)
Definition matches_in (w : World) (flt : string) (l : loc) : bool :=
  match note_heap w !! l with
  | Some n => note_matches n flt
  | None => false
  end.

(** The text of the id of the note behind [l] is the text of [note_id]. *)
Definition id_matches (w : World) (note_id : IdArg) (l : loc) : bool :=
  match note_heap w !! l with
  | Some n => String.eqb (str_int (id n)) (py_str note_id)
  | None => false
  end.

(** The first note of the list, in order, whose id matches. *)
Definition first_match (w : World) (ns : list loc) (note_id : IdArg) : option loc :=
  List.find (id_matches w note_id) ns.

(** Some note of the list has that id, compared as text. *)
Definition id_exists (w : World) (ns : list loc) (note_id : IdArg) : Prop :=
  ∃ l n, l ∈ ns ∧ note_heap w !! l = Some n ∧ str_int (id n) = py_str note_id.

(** [x] is a contiguous part of [s]. *)
Definition is_substring (x s : string) : Prop :=
  ∃ pre post, s = pre +:+ x +:+ post.

(** Containment in the tags, by the type of the value. *)
Definition in_tags (x : string) (t : Tags) : Prop :=
  match t with
  | TagsStr s => is_substring x s
  | TagsList l => x ∈ l
  end.

(** Both modifications are the same lookup followed by an assignment to one
    attribute of the note found. *)
Definition modify_at (self : loc) (note_id : IdArg) (upd : Note → Note) : M bool :=
  o ← Notebook__find_note self note_id;
  match o with
  | Some note =>
      n ← get_note note;
      _ ← put_note note (upd n);
      ret true
  | None => ret false
  end.

(** The state once the three lines were read. *)
Definition after_prompts (w : World) (rest : list string) : World :=
  set_stdin rest
    (set_stdout
       (((stdout w +:+ "Enter a note id: ") +:+ "Enter a memo: ") +:+ "Enter tags: ")
       w).

(** ** Sequences of operations of one process *)

(** What a program does with the two classes, and the calendar moving on
    between two operations. *)
Inductive Op :=
  | OpNote (memo0 : string) (tags0 : Tags)               (* [Note(memo, tags)] *)
  | OpNotebook                                           (* [Notebook()] *)
  | OpNewNote (nb : loc) (memo0 : string) (tags0 : Tags) (* [nb.new_note(memo, tags)] *)
  | OpSearch (nb : loc) (flt : string)                   (* [nb.search(filter)] *)
  | OpModifyMemo (nb : loc) (note_id : IdArg) (memo0 : string)
  | OpModifyTags (nb : loc) (note_id : IdArg) (tags0 : Tags)
  | OpDate (d : date).

Definition creates (o : Op) : bool :=
  match o with
  | OpNote _ _ | OpNewNote _ _ _ => true
  | _ => false
  end.

Definition count_creations (ops : list Op) : nat := length (List.filter creates ops).

(** One operation; the answer is the id of the note it made, if it made one
    (read from the new object: [n.id], [nb.notes[-1].id]). *)
Definition run_op (o : Op) : M (option Z) :=
  match o with
  | OpNote m t =>
      l ← Note_init m t;
      n ← get_note l;
      ret (Some (id n))
  | OpNotebook =>
      _ ← Notebook_init;
      ret None
  | OpNewNote nb m t =>
      _ ← Notebook_new_note nb m t;
      ns ← get_notes nb;
      match last ns with
      | Some l => n ← get_note l; ret (Some (id n))
      | None => λ _, Raise Stuck
      end
  | OpSearch nb flt =>
      _ ← Notebook_search nb flt;
      ret None
  | OpModifyMemo nb note_id m =>
      _ ← Notebook_modify_memo nb note_id m;
      ret None
  | OpModifyTags nb note_id t =>
      _ ← Notebook_modify_tags nb note_id t;
      ret None
  | OpDate d => λ w, Ok None (set_today d w)
  end.

(** A sequence of operations; the answer lists the ids given to the notes
    made, in the order of their creation. *)
Fixpoint run_ops (ops : list Op) : M (list Z) :=
  match ops with
  | [] => ret []
  | o :: rest =>
      r ← run_op o;
      ids ← run_ops rest;
      ret (match r with Some k => k :: ids | None => ids end)
  end.

(** The notebooks that exist after an operation. *)
Definition op_dom (o : Op) (D : gset loc) : gset loc :=
  match o with
  | OpNotebook => {[fresh D]} ∪ D
  | _ => D
  end.

(** The operation is applied to a notebook that exists. *)
Definition op_ok (D : gset loc) (o : Op) : bool :=
  match o with
  | OpNewNote nb _ _ | OpSearch nb _ | OpModifyMemo nb _ _ | OpModifyTags nb _ _ =>
      bool_decide (nb ∈ D)
  | _ => true
  end.

Fixpoint ops_ok (D : gset loc) (ops : list Op) : bool :=
  match ops with
  | [] => true
  | o :: rest => op_ok D o && ops_ok (op_dom o D) rest
  end.

(** The lists of the notebooks hold references to notes that exist. *)
Definition wf (w : World) : Prop :=
  ∀ nb ns, notebook_heap w !! nb = Some ns → notes_alloc w ns.

(** No note carries an id beyond the counter. *)
Definition ids_bounded (w : World) : Prop :=
  ∀ l n, note_heap w !! l = Some n → id n ≤ last_id w.

(** The notes of [w] are still there in [w'], with the ids they had. *)
Definition ids_kept (w w' : World) : Prop :=
  ∀ l n, note_heap w !! l = Some n →
         ∃ n', note_heap w' !! l = Some n' ∧ id n' = id n.

(** What one operation guarantees when it returns. *)
Definition step_post (o : Op) (w : World) (r : option Z) (w' : World) : Prop :=
  r = (if creates o then Some (last_id w + 1) else None) ∧
  last_id w' = last_id w + (if creates o then 1 else 0) ∧
  ids_kept w w' ∧
  (ids_bounded w → ids_bounded w') ∧
  (wf w → wf w') ∧
  dom (notebook_heap w') = op_dom o (dom (notebook_heap w)).

(** ** A small session

    [nb = Notebook(); nb.new_note("hello world");
     nb.new_note("hello again", ["greet", "h"])] in a new process, and the
    state it leaves. *)

Definition demo_date : date := Date 2021 3 14.
Definition demo_nb : loc := 1%positive.
Definition demo_n1 : loc := 1%positive.
Definition demo_n2 : loc := 2%positive.

Definition demo_session : M loc :=
  nb ← Notebook_init;
  _ ← Notebook_new_note nb "hello world" (TagsStr "");
  _ ← Notebook_new_note nb "hello again" (TagsList ["greet"; "h"]);
  ret nb.

Definition demo_world : World :=
  mkWorld 2 demo_date
    (<[demo_n2 := mkNote "hello again" (TagsList ["greet"; "h"]) demo_date 2]>
       {[demo_n1 := mkNote "hello world" (TagsStr "") demo_date 1]})
    {[demo_nb := [demo_n1; demo_n2]]}
    [] "".

(** A notebook with one note, its tags text. *)
Definition demo_text_world : World :=
  mkWorld 1 demo_date
    {[demo_n1 := mkNote "hello world" (TagsStr "to do") demo_date 1]}
    {[demo_nb := [demo_n1]]}
    [] "".

(** The same state with three lines waiting at the menu. *)
Definition demo_typing : World := set_stdin ["2"; "hi again"; ""] demo_world.

(** Two notebooks and a few notes, made and changed in turn. *)
Definition demo_ops : list Op :=
  [ OpNotebook;
    OpNewNote 1%positive "a" (TagsStr "");
    OpNotebook;
    OpNote "b" (TagsStr "x");
    OpNewNote 2%positive "c" (TagsList ["t"]);
    OpModifyMemo 1%positive (IdInt 1) "z";
    OpDate (Date 2021 3 15);
    OpNewNote 1%positive "d" (TagsStr "");
    OpSearch 2%positive "c" ].

(** ** The loop of the menu *)

(** The text between the triple quotes of [display_menu]. *)
Definition menu_text : string :=
  nl +:+ "        Notebook Menu" +:+
  nl +:+ "        1. Show all Notes" +:+
  nl +:+ "        2. Search Notes" +:+
  nl +:+ "        3. Add Note" +:+
  nl +:+ "        4. Modify Note" +:+
  nl +:+ "        5. Quit" +:+
  nl +:+ "        ".

Definition Menu_display_menu (self : Menu) : M unit := print menu_text.

(** The bound methods stored in [self.choices]. *)
Inductive action :=
  | ActShowNotes
  | ActSearchNotes
  | ActAddNote
  | ActModifyNote
  | ActQuit.

(** [self.choices.get(choice)] *)
Definition choices (choice : string) : option action :=
  if String.eqb choice "1" then Some ActShowNotes
  else if String.eqb choice "2" then Some ActSearchNotes
  else if String.eqb choice "3" then Some ActAddNote
  else if String.eqb choice "4" then Some ActModifyNote
  else if String.eqb choice "5" then Some ActQuit
  else None.

(** How one turn of the loop ends: the loop goes on, [sys.exit] was called,
    or an exception left the loop. *)
Inductive iter :=
  | Continue (w : World)
  | Exit (status : Z) (w : World)
  | Abort (e : exn).

Definition iter_of (r : result unit) : iter :=
  match r with
  | Ok _ w => Continue w
  | Raise e => Abort e
  end.

(** [quit]: the farewell, then [sys.exit(0)]. *)
Definition Menu_quit (self : Menu) (w : World) : iter :=
  match print "Thank you for using your notebook today." w with
  | Ok _ w' => Exit 0 w'
  | Raise e => Abort e
  end.

(** [action()] *)
Definition call_action (repr_str : string → string) (self : Menu) (a : action)
    (w : World) : iter :=
  match a with
  | ActShowNotes => iter_of (Menu_show_notes repr_str self None w)
  | ActSearchNotes => iter_of (Menu_search_notes repr_str self w)
  | ActAddNote => iter_of (Menu_add_note self w)
  | ActModifyNote => iter_of (Menu_modify_note self w)
  | ActQuit => Menu_quit self w
  end.

(** The body of [while True] in [run]. *)
Definition run_body (repr_str : string → string) (self : Menu) (w : World) : iter :=
  match (_ ← Menu_display_menu self; input "Enter an option: ") w with
  | Raise e => Abort e
  | Ok choice w1 =>
      match choices choice with
      | Some a => call_action repr_str self a w1
      | None => iter_of (print (choice +:+ " is not a valid choice") w1)
      end
  end.

(** How the process ends, [Unfinished] when the bound on the number of turns
    was reached first. *)
Inductive outcome :=
  | Exited (status : Z) (w : World)
  | Failed (e : exn)
  | Unfinished (w : World).

(** [run], at most [fuel] turns of it. *)
Fixpoint Menu_run (repr_str : string → string) (fuel : nat) (self : Menu)
    (w : World) : outcome :=
  match fuel with
  | O => Unfinished w
  | S fuel' =>
      match run_body repr_str self w with
      | Continue w' => Menu_run repr_str fuel' self w'
      | Exit status w' => Exited status w'
      | Abort e => Failed e
      end
  end.

(** [Menu().run()] in a new process. *)
Definition main (repr_str : string → string) (fuel : nat) (d : date)
    (lines : list string) : outcome :=
  match Menu_init (init_world d lines) with
  | Ok self w => Menu_run repr_str fuel self w
  | Raise e => Failed e
  end.

(** ** More vocabulary *)

(** The state when the choice has been read. *)
Definition after_choice (w : World) (rest : list string) : World :=
  set_stdin rest
    (set_stdout ((stdout w +:+ menu_text +:+ nl) +:+ "Enter an option: ") w).

(** The choices that the menu knows. *)
Definition valid_choices : list string := ["1"; "2"; "3"; "4"; "5"].

(** The two states hold the same objects and counter; only what was read
    and written may differ. *)
Definition same_store (w w' : World) : Prop :=
  last_id w' = last_id w ∧ today w' = today w ∧
  note_heap w' = note_heap w ∧ notebook_heap w' = notebook_heap w.

(** What [show_notes] writes for a list of notes: two lines for each. *)
Fixpoint render_notes (repr_str : string → string) (h : gmap loc Note)
    (ns : list loc) : string :=
  match ns with
  | [] => ""
  | l :: rest =>
      match h !! l with
      | Some n => (format_note repr_str n +:+ nl) +:+ render_notes repr_str h rest
      | None => render_notes repr_str h rest
      end
  end.

(** The state only grew: input was consumed from the front, output was
    added at the end, the counter did not go down, the date is the same,
    every note is still there with its id and creation date, and every
    notebook is still there with its list continued. *)
Definition extends (w w' : World) : Prop :=
  (∃ pre, stdin w = pre ++ stdin w') ∧
  (∃ post, stdout w' = stdout w +:+ post) ∧
  last_id w ≤ last_id w' ∧
  today w' = today w ∧
  (∀ l n, note_heap w !! l = Some n →
     ∃ n', note_heap w' !! l = Some n' ∧ id n' = id n ∧
           creation_date n' = creation_date n) ∧
  (∀ nb ns, notebook_heap w !! nb = Some ns →
     ∃ ns', notebook_heap w' !! nb = Some (ns ++ ns')).

(** A computation that only extends the state. *)
Definition extending {A} (m : M A) : Prop :=
  ∀ w a w', m w = Ok a w' → extends w w'.

(** No two note objects carry the same id. *)
Definition ids_unique (w : World) : Prop :=
  ∀ l1 l2 n1 n2, note_heap w !! l1 = Some n1 → note_heap w !! l2 = Some n2 →
                 id n1 = id n2 → l1 = l2.

(** A note object is in at most one notebook, at most once. *)
Definition owned_once (w : World) : Prop :=
  ∀ nb1 nb2 ns1 ns2 i j l,
    notebook_heap w !! nb1 = Some ns1 → notebook_heap w !! nb2 = Some ns2 →
    ns1 !! i = Some l → ns2 !! j = Some l → nb1 = nb2 ∧ i = j.

(** What every state of a process satisfies. *)
Definition store_inv (w : World) : Prop :=
  wf w ∧ ids_bounded w ∧ ids_unique w ∧ owned_once w.

(** The ids of the notes of a list, in order. *)
Definition ids_of (w : World) (ns : list loc) : list Z :=
  omap (λ l, id <$> note_heap w !! l) ns.

(** The tags of a note are text. *)
Definition text_tags (n : Note) : Prop :=
  match tags n with
  | TagsStr _ => True
  | TagsList _ => False
  end.

(** What holds of the notebook of a menu started in a new process: its notes
    exist, carry the ids [1], [2], ... up to the counter in the order of the
    list, and have text for tags. *)
Definition menu_inv (self : Menu) (w : World) : Prop :=
  ∃ ns, notebook_heap w !! notebook self = Some ns ∧
        notes_alloc w ns ∧
        ids_of w ns = seqZ 1 (last_id w) ∧
        0 ≤ last_id w ∧
        Forall (λ l, ∀ n, note_heap w !! l = Some n → text_tags n) ns.

(** * Properties *)

(** ** Strings *)

Lemma app_empty_l (s : string) : "" +:+ s = s.
Proof. reflexivity. Qed.

Lemma app_String (a : Ascii.ascii) (s t : string) :
  String a s +:+ t = String a (s +:+ t).
Proof. reflexivity. Qed.

Lemma app_empty_r (s : string) : s +:+ "" = s.
Proof. induction s as [|a s IH]; [done|]. by rewrite app_String, IH. Qed.

Lemma app_assoc_str (s t u : string) : (s +:+ t) +:+ u = s +:+ t +:+ u.
Proof.
  induction s as [|a s IH]; [done|]. by rewrite !app_String, IH.
Qed.

Lemma str_startswith_spec (s p : string) :
  str_startswith s p = true ↔ ∃ post, s = p +:+ post.
Proof.
  revert s. induction p as [|a p IH]; intros s; simpl.
  - split; [intros _; by exists s | done].
  - destruct s as [|b s].
    + split; [done | intros [post H]; by rewrite app_String in H].
    + rewrite andb_true_iff, Ascii.eqb_eq, IH. split.
      * intros [-> [post ->]]. by exists post.
      * intros [post H]. rewrite app_String in H. injection H as -> ->. eauto.
Qed.

Lemma str_contains_spec (s x : string) :
  str_contains s x = true ↔ is_substring x s.
Proof.
  unfold is_substring. induction s as [|b s IH]; simpl.
  - rewrite orb_false_r, str_startswith_spec. split.
    + intros [post H]. by exists "", post.
    + intros [[|a pre] [post H]]; [by exists post|].
      by rewrite app_String in H.
  - rewrite orb_true_iff, IH, str_startswith_spec. split.
    + intros [[post H] | (pre & post & ->)].
      * by exists "", post.
      * by exists (String b pre), post.
    + intros [[|a pre] [post H]].
      * left. by exists post.
      * right. rewrite app_String in H. injection H as -> ->. eauto.
Qed.

Lemma list_contains_spec (l : list string) (x : string) :
  list_contains l x = true ↔ x ∈ l.
Proof.
  unfold list_contains. rewrite existsb_exists. split.
  - intros (y & Hy & Heq). apply String.eqb_eq in Heq as ->.
    by apply list_elem_of_In.
  - intros H. exists x. split; [by apply list_elem_of_In | apply String.eqb_refl].
Qed.

Lemma tags_contains_spec (t : Tags) (x : string) :
  tags_contains t x = true ↔ in_tags x t.
Proof. destruct t; [apply str_contains_spec | apply list_contains_spec]. Qed.

Lemma note_matches_spec (n : Note) (flt : string) :
  note_matches n flt = true ↔ is_substring flt (memo n) ∨ in_tags flt (tags n).
Proof.
  unfold note_matches.
  by rewrite orb_true_iff, str_contains_spec, tags_contains_spec.
Qed.

Lemma str_contains_empty (s : string) : str_contains s "" = true.
Proof. by destruct s. Qed.

Lemma note_matches_empty (n : Note) : note_matches n "" = true.
Proof. unfold note_matches. by rewrite str_contains_empty. Qed.

Lemma str_truthy_spec (s : string) : str_truthy s = true ↔ s ≠ "".
Proof. by destruct s. Qed.

(** ** The loops, against the store *)

Lemma Note_match_alloc (w : World) (l : loc) (n : Note) (flt : string) :
  note_heap w !! l = Some n → Note_match l flt w = Ok (note_matches n flt) w.
Proof. intros H. unfold Note_match, bind, get_note. by rewrite H. Qed.

Lemma search_loop_filter (w : World) (ns : list loc) (flt : string) :
  notes_alloc w ns →
  search_loop ns flt w = Ok (List.filter (matches_in w flt) ns) w.
Proof.
  induction 1 as [|l ns [n Hn] _ IH]; [done|].
  simpl. unfold bind at 1. rewrite (Note_match_alloc _ _ _ _ Hn).
  unfold bind at 1. rewrite IH.
  assert (matches_in w flt l = note_matches n flt) as ->; [|done].
  unfold matches_in. by rewrite Hn.
Qed.

Lemma find_note_loop_find (w : World) (ns : list loc) (note_id : IdArg) :
  notes_alloc w ns →
  find_note_loop ns note_id w = Ok (first_match w ns note_id) w.
Proof.
  induction 1 as [|l ns [n Hn] _ IH]; [done|].
  simpl. unfold bind, get_note, id_matches at 1. rewrite Hn.
  by destruct (String.eqb _ _).
Qed.

Lemma first_match_Some (w : World) (ns : list loc) (note_id : IdArg) (l : loc) :
  first_match w ns note_id = Some l ↔
  ∃ pre post, ns = pre ++ l :: post ∧ id_matches w note_id l = true ∧
              Forall (λ l', id_matches w note_id l' = false) pre.
Proof.
  unfold first_match. induction ns as [|a ns IH]; simpl.
  - split; [done | intros ([|??] & ? & ? & _); done].
  - destruct (id_matches w note_id a) eqn:Ha.
    + split.
      * intros [= ->]. by exists [], ns.
      * intros ([|b pre] & post & Heq & Hl & Hpre); simplify_eq/=; [done|].
        apply Forall_cons in Hpre as [Hb _]. congruence.
    + rewrite IH. split.
      * intros (pre & post & -> & Hl & Hpre). exists (a :: pre), post.
        split_and!; [done..|by constructor].
      * intros ([|b pre] & post & Heq & Hl & Hpre); simplify_eq/=; [congruence|].
        apply Forall_cons in Hpre as [_ Hpre]. eauto.
Qed.

Lemma first_match_None (w : World) (ns : list loc) (note_id : IdArg) :
  first_match w ns note_id = None ↔
  Forall (λ l, id_matches w note_id l = false) ns.
Proof.
  unfold first_match. induction ns as [|a ns IH]; simpl.
  - split; [constructor | done].
  - rewrite Forall_cons. destruct (id_matches w note_id a) eqn:Ha.
    + split; [done | intros [? _]; done].
    + rewrite IH. split; [by split | by intros [_ ?]].
Qed.

Lemma id_matches_true (w : World) (note_id : IdArg) (l : loc) :
  id_matches w note_id l = true ↔
  ∃ n, note_heap w !! l = Some n ∧ str_int (id n) = py_str note_id.
Proof.
  unfold id_matches. destruct (note_heap w !! l) as [n|].
  - rewrite String.eqb_eq. split; [by exists n | by intros (? & [= <-] & ?)].
  - split; [done | by intros (? & ? & _)].
Qed.

Lemma first_match_exists (w : World) (ns : list loc) (note_id : IdArg) :
  is_Some (first_match w ns note_id) ↔ id_exists w ns note_id.
Proof.
  unfold id_exists. split.
  - intros [l Hl]. apply first_match_Some in Hl as (pre & post & -> & Hl & _).
    apply id_matches_true in Hl as (n & Hn & Hid).
    exists l, n. split; [|done]. apply elem_of_app. right. apply elem_of_cons. by left.
  - intros (l & n & Hin & Hn & Hid).
    destruct (first_match w ns note_id) eqn:E; [done|].
    apply first_match_None in E. rewrite Forall_forall in E.
    specialize (E l Hin). assert (id_matches w note_id l = true) as E'.
    { apply id_matches_true. eauto. }
    congruence.
Qed.

Lemma first_match_alloc (w : World) (ns : list loc) (note_id : IdArg) (l : loc) :
  first_match w ns note_id = Some l →
  l ∈ ns ∧ ∃ n, note_heap w !! l = Some n ∧ str_int (id n) = py_str note_id.
Proof.
  intros (pre & post & -> & Hl & _)%first_match_Some. split.
  - apply elem_of_app. right. apply elem_of_cons. by left.
  - by apply id_matches_true.
Qed.

Lemma find_note_run (w : World) (self : loc) (ns : list loc) (note_id : IdArg) :
  notebook_heap w !! self = Some ns → notes_alloc w ns →
  Notebook__find_note self note_id w = Ok (first_match w ns note_id) w.
Proof.
  intros Hnb Hal. unfold Notebook__find_note, bind, get_notes. rewrite Hnb.
  by apply find_note_loop_find.
Qed.

Lemma modify_memo_at (self : loc) (note_id : IdArg) (v : string) :
  Notebook_modify_memo self note_id v = modify_at self note_id (with_memo v).
Proof. reflexivity. Qed.

Lemma modify_tags_at (self : loc) (note_id : IdArg) (v : Tags) :
  Notebook_modify_tags self note_id v = modify_at self note_id (with_tags v).
Proof. reflexivity. Qed.

Lemma modify_at_found (w : World) (self : loc) (ns : list loc) (note_id : IdArg)
    (upd : Note → Note) (l : loc) (n : Note) :
  notebook_heap w !! self = Some ns → notes_alloc w ns →
  first_match w ns note_id = Some l → note_heap w !! l = Some n →
  modify_at self note_id upd w =
  Ok true (set_note_heap (<[l := upd n]> (note_heap w)) w).
Proof.
  intros Hnb Hal Hf Hn. unfold modify_at, bind at 1.
  rewrite (find_note_run _ _ _ _ Hnb Hal), Hf.
  unfold bind, get_note. by rewrite Hn.
Qed.

Lemma modify_at_missing (w : World) (self : loc) (ns : list loc) (note_id : IdArg)
    (upd : Note → Note) :
  notebook_heap w !! self = Some ns → notes_alloc w ns →
  first_match w ns note_id = None →
  modify_at self note_id upd w = Ok false w.
Proof.
  intros Hnb Hal Hf. unfold modify_at, bind at 1.
  by rewrite (find_note_run _ _ _ _ Hnb Hal), Hf.
Qed.

(** Whatever the store, a modification that reports success assigned one
    attribute of one note and nothing else. *)
Lemma modify_at_true_inv (w w' : World) (self : loc) (note_id : IdArg)
    (upd : Note → Note) :
  modify_at self note_id upd w = Ok true w' →
  ∃ l n, note_heap w !! l = Some n ∧
         w' = set_note_heap (<[l := upd n]> (note_heap w)) w.
Proof.
  unfold modify_at, bind at 1.
  destruct (Notebook__find_note self note_id w) as [[l|] w1|e] eqn:Hf; [|done..].
  assert (w1 = w) as ->.
  { revert Hf. unfold Notebook__find_note, bind, get_notes.
    destruct (notebook_heap w !! self) as [ns|]; [|done].
    clear. induction ns as [|a ns IH]; simpl; [done|].
    unfold bind, get_note. destruct (note_heap w !! a); [|done].
    destruct (String.eqb _ _); [by intros [= _ ->] | apply IH]. }
  unfold bind, get_note. destruct (note_heap w !! l) as [n|] eqn:Hn; [|done].
  simpl. intros [= <-]. by exists l, n.
Qed.

Lemma modify_at_false_inv (w w' : World) (self : loc) (note_id : IdArg)
    (upd : Note → Note) :
  modify_at self note_id upd w = Ok false w' → w' = w.
Proof.
  unfold modify_at, bind at 1.
  destruct (Notebook__find_note self note_id w) as [[l|] w1|e] eqn:Hf; [| |done].
  - unfold bind, get_note. destruct (note_heap w1 !! l); [|done]. simpl. done.
  - intros [= <-]. revert Hf. unfold Notebook__find_note, bind, get_notes.
    destruct (notebook_heap w !! self) as [ns|]; [|done].
    clear. induction ns as [|a ns IH]; simpl; [by intros [= ->]|].
    unfold bind, get_note. destruct (note_heap w !! a); [|done].
    destruct (String.eqb _ _); [done | apply IH].
Qed.

(** ** The small session *)

Example demo_reached : demo_session (init_world demo_date []) = Ok demo_nb demo_world.
Proof. vm_compute. reflexivity. Qed.

(** ** Notebook.search *)

(** C2: [search] returns exactly the notes of the notebook that match the
    filter, in the order of the notebook, and leaves the state as it was; on
    an empty notebook it returns the empty list. *)
Theorem search_exactly_matching (w : World) (self : loc) (ns : list loc) (flt : string) :
  notebook_heap w !! self = Some ns →
  notes_alloc w ns →
  ∃ res, Notebook_search self flt w = Ok res w ∧
         res = List.filter (matches_in w flt) ns ∧
         sublist res ns ∧
         (∀ l, l ∈ res ↔ l ∈ ns ∧ matches_in w flt l = true) ∧
         (ns = [] → res = []).
Proof.
  intros Hnb Hal. exists (List.filter (matches_in w flt) ns). split_and!.
  - unfold Notebook_search, bind, get_notes. rewrite Hnb.
    by apply search_loop_filter.
  - done.
  - clear. induction ns as [|a ns IH]; simpl; [done|].
    destruct (matches_in w flt a); by constructor.
  - intros l. by rewrite !list_elem_of_In, filter_In.
  - by intros ->.
Qed.

Lemma search_exactly_matching_witness :
  notebook_heap demo_world !! demo_nb = Some [demo_n1; demo_n2] ∧
  notes_alloc demo_world [demo_n1; demo_n2] ∧
  ∃ res, Notebook_search demo_nb "world" demo_world = Ok res demo_world ∧
         res = List.filter (matches_in demo_world "world") [demo_n1; demo_n2] ∧
         sublist res [demo_n1; demo_n2] ∧
         (∀ l, l ∈ res ↔ l ∈ [demo_n1; demo_n2] ∧ matches_in demo_world "world" l = true) ∧
         ([demo_n1; demo_n2] = [] → res = []).
Proof.
  assert (notes_alloc demo_world [demo_n1; demo_n2]) as Hal.
  { repeat constructor; eexists; reflexivity. }
  split; [reflexivity|]. split; [exact Hal|].
  apply (search_exactly_matching demo_world demo_nb [demo_n1; demo_n2] "world");
    [reflexivity | exact Hal].
Defined.

(** ** Notebook._find_note *)

(** C5: [_find_note] compares [str(note.id)] with [str(note_id)] along the
    list: it returns the first note whose text matches, [None] when no note
    does, and an integer and its decimal text designate the same note. *)
Theorem find_note_first_textual_match (w : World) (self : loc) (ns : list loc) :
  notebook_heap w !! self = Some ns →
  notes_alloc w ns →
  ∀ note_id, ∃ o,
    Notebook__find_note self note_id w = Ok o w ∧
    (∀ l, o = Some l ↔
          ∃ pre post n, ns = pre ++ l :: post ∧
            note_heap w !! l = Some n ∧ str_int (id n) = py_str note_id ∧
            ∀ l' n', l' ∈ pre → note_heap w !! l' = Some n' →
                     str_int (id n') ≠ py_str note_id) ∧
    (o = None ↔
     ∀ l n, l ∈ ns → note_heap w !! l = Some n → str_int (id n) ≠ py_str note_id) ∧
    (∀ k, note_id = IdInt k →
          Notebook__find_note self (IdStr (str_int k)) w = Ok o w ∧
          ∀ l n, o = Some l → note_heap w !! l = Some n → id n = k).
Proof.
  intros Hnb Hal note_id. exists (first_match w ns note_id).
  assert (∀ l', id_matches w note_id l' = false ↔
                ∀ n', note_heap w !! l' = Some n' → str_int (id n') ≠ py_str note_id)
    as Hneg.
  { intros l'. unfold id_matches. destruct (note_heap w !! l') as [n'|].
    - rewrite String.eqb_neq. split; [by intros ? ? [= <-] | eauto].
    - split; [done | done]. }
  split_and!.
  - by apply find_note_run.
  - intros l. rewrite first_match_Some. split.
    + intros (pre & post & -> & (n & Hn & Hid)%id_matches_true & Hpre).
      exists pre, post, n. split_and!; [done..|].
      intros l' n' Hin Hn'. rewrite Forall_forall in Hpre.
      apply (proj1 (Hneg l') (Hpre l' Hin) n' Hn').
    + intros (pre & post & n & -> & Hn & Hid & Hpre). exists pre, post.
      split_and!; [done| apply id_matches_true; eauto |].
      apply Forall_forall. intros l' Hin. apply Hneg. eauto.
  - rewrite first_match_None, Forall_forall. split.
    + intros H l n Hin. apply (proj1 (Hneg l) (H l Hin) n).
    + intros H l Hin. apply Hneg. eauto.
  - intros k ->. split.
    + by rewrite (find_note_run _ _ _ (IdStr (str_int k)) Hnb Hal).
    + intros l n (_ & n' & Hn' & Hid)%first_match_alloc Hn.
      simplify_eq/=. by apply (inj pretty).
Qed.

Lemma find_note_first_textual_match_witness :
  notebook_heap demo_world !! demo_nb = Some [demo_n1; demo_n2] ∧
  notes_alloc demo_world [demo_n1; demo_n2] ∧
  ∃ o, Notebook__find_note demo_nb (IdInt 2) demo_world = Ok o demo_world ∧
       Notebook__find_note demo_nb (IdStr "2") demo_world = Ok o demo_world.
Proof.
  assert (notes_alloc demo_world [demo_n1; demo_n2]) as Hal.
  { repeat constructor; eexists; reflexivity. }
  split; [reflexivity|]. split; [exact Hal|].
  destruct (find_note_first_textual_match demo_world demo_nb [demo_n1; demo_n2]
              eq_refl Hal (IdInt 2)) as (o & Hrun & _ & _ & Hstr).
  exists o. split; [exact Hrun|]. exact (proj1 (Hstr 2 eq_refl)).
Defined.

(** ** Notebook.modify_memo and Notebook.modify_tags *)

(** C3: [modify_memo] returns [True] exactly when some note of the notebook
    has the given id; it then assigns the new memo to the first such note;
    otherwise it returns [False] and the whole state is as before.
    [modify_tags] does the same for the tags. *)
Theorem modify_contract (w : World) (self : loc) (ns : list loc) (note_id : IdArg) :
  notebook_heap w !! self = Some ns →
  notes_alloc w ns →
  (∀ v, ∃ b w',
      Notebook_modify_memo self note_id v w = Ok b w' ∧
      (b = true ↔ id_exists w ns note_id) ∧
      (b = true → ∃ l n n', first_match w ns note_id = Some l ∧
           note_heap w !! l = Some n ∧ str_int (id n) = py_str note_id ∧
           note_heap w' !! l = Some n' ∧ memo n' = v) ∧
      (b = false → w' = w)) ∧
  (∀ v, ∃ b w',
      Notebook_modify_tags self note_id v w = Ok b w' ∧
      (b = true ↔ id_exists w ns note_id) ∧
      (b = true → ∃ l n n', first_match w ns note_id = Some l ∧
           note_heap w !! l = Some n ∧ str_int (id n) = py_str note_id ∧
           note_heap w' !! l = Some n' ∧ tags n' = v) ∧
      (b = false → w' = w)).
Proof.
  intros Hnb Hal.
  assert (∀ upd, ∃ b w',
      modify_at self note_id upd w = Ok b w' ∧
      (b = true ↔ id_exists w ns note_id) ∧
      (b = true → ∃ l n, first_match w ns note_id = Some l ∧
           note_heap w !! l = Some n ∧ str_int (id n) = py_str note_id ∧
           note_heap w' !! l = Some (upd n)) ∧
      (b = false → w' = w)) as Hgen.
  { intros upd. destruct (first_match w ns note_id) as [l|] eqn:Hf.
    - destruct (first_match_alloc _ _ _ _ Hf) as (Hin & n & Hn & Hid).
      eexists true, _. split_and!.
      + by apply (modify_at_found _ _ _ _ _ _ _ Hnb Hal Hf Hn).
      + split; [intros _ | done]. apply first_match_exists. by rewrite Hf.
      + intros _. exists l, n. split_and!; [done..|]. simpl.
        by rewrite lookup_insert_eq.
      + done.
    - exists false, w. split_and!.
      + by apply (modify_at_missing _ _ _ _ _ Hnb Hal Hf).
      + split; [done|]. intros [? H]%first_match_exists. congruence.
      + done.
      + done. }
  split; intros v.
  - destruct (Hgen (with_memo v)) as (b & w' & Hrun & Hiff & Hset & Hno).
    exists b, w'. split_and!; [done..| |done].
    intros Hb. destruct (Hset Hb) as (l & n & ? & ? & ? & ?).
    by exists l, n, (with_memo v n).
  - destruct (Hgen (with_tags v)) as (b & w' & Hrun & Hiff & Hset & Hno).
    exists b, w'. split_and!; [done..| |done].
    intros Hb. destruct (Hset Hb) as (l & n & ? & ? & ? & ?).
    by exists l, n, (with_tags v n).
Qed.

Lemma modify_contract_witness :
  notebook_heap demo_world !! demo_nb = Some [demo_n1; demo_n2] ∧
  notes_alloc demo_world [demo_n1; demo_n2] ∧
  (∃ b w', Notebook_modify_memo demo_nb (IdInt 1) "hi world" demo_world = Ok b w' ∧
           (b = true ↔ id_exists demo_world [demo_n1; demo_n2] (IdInt 1))) ∧
  (∃ b w', Notebook_modify_tags demo_nb (IdStr "7") (TagsStr "x") demo_world = Ok b w' ∧
           (b = false → w' = demo_world)).
Proof.
  assert (notes_alloc demo_world [demo_n1; demo_n2]) as Hal.
  { repeat constructor; eexists; reflexivity. }
  split; [reflexivity|]. split; [exact Hal|]. split.
  - destruct (proj1 (modify_contract demo_world demo_nb [demo_n1; demo_n2] (IdInt 1)
                       eq_refl Hal) "hi world") as (b & w' & Hrun & Hiff & _).
    exists b, w'. split; [exact Hrun | exact Hiff].
  - destruct (proj2 (modify_contract demo_world demo_nb [demo_n1; demo_n2] (IdStr "7")
                       eq_refl Hal) (TagsStr "x")) as (b & w' & Hrun & _ & _ & Hno).
    exists b, w'. split; [exact Hrun | exact Hno].
Defined.

(** C10: a [modify_memo] that returned [True] changed the memo of one note:
    that note keeps its id, tags and creation date, every other note is as
    it was, and so are the notebooks, the counter and the rest of the state.
    The same holds of [modify_tags] and the tags. *)
Theorem modify_frame (w : World) (self : loc) (note_id : IdArg) :
  (∀ v w', Notebook_modify_memo self note_id v w = Ok true w' →
     ∃ l n n', note_heap w !! l = Some n ∧ note_heap w' !! l = Some n' ∧
       memo n' = v ∧ id n' = id n ∧ tags n' = tags n ∧
       creation_date n' = creation_date n ∧
       (∀ l', l' ≠ l → note_heap w' !! l' = note_heap w !! l') ∧
       notebook_heap w' = notebook_heap w ∧ last_id w' = last_id w ∧
       today w' = today w ∧ stdin w' = stdin w ∧ stdout w' = stdout w) ∧
  (∀ v w', Notebook_modify_tags self note_id v w = Ok true w' →
     ∃ l n n', note_heap w !! l = Some n ∧ note_heap w' !! l = Some n' ∧
       tags n' = v ∧ id n' = id n ∧ memo n' = memo n ∧
       creation_date n' = creation_date n ∧
       (∀ l', l' ≠ l → note_heap w' !! l' = note_heap w !! l') ∧
       notebook_heap w' = notebook_heap w ∧ last_id w' = last_id w ∧
       today w' = today w ∧ stdin w' = stdin w ∧ stdout w' = stdout w).
Proof.
  split; intros v w' Hrun.
  - rewrite modify_memo_at in Hrun.
    apply modify_at_true_inv in Hrun as (l & n & Hn & ->).
    exists l, n, (with_memo v n). simpl. rewrite lookup_insert_eq.
    split_and!; try done. intros l' Hne. by rewrite lookup_insert_ne.
  - rewrite modify_tags_at in Hrun.
    apply modify_at_true_inv in Hrun as (l & n & Hn & ->).
    exists l, n, (with_tags v n). simpl. rewrite lookup_insert_eq.
    split_and!; try done. intros l' Hne. by rewrite lookup_insert_ne.
Qed.

Lemma modify_frame_witness :
  ∃ w', Notebook_modify_memo demo_nb (IdInt 1) "hi world" demo_world = Ok true w' ∧
    ∃ l n n', note_heap demo_world !! l = Some n ∧ note_heap w' !! l = Some n' ∧
      memo n' = "hi world" ∧ id n' = id n ∧ tags n' = tags n ∧
      creation_date n' = creation_date n ∧
      (∀ l', l' ≠ l → note_heap w' !! l' = note_heap demo_world !! l') ∧
      notebook_heap w' = notebook_heap demo_world ∧ last_id w' = last_id demo_world ∧
      today w' = today demo_world ∧ stdin w' = stdin demo_world ∧
      stdout w' = stdout demo_world.
Proof.
  eexists. split; [vm_compute; reflexivity|].
  apply (proj1 (modify_frame demo_world demo_nb (IdInt 1)) "hi world").
  vm_compute. reflexivity.
Defined.

(** ** Note.__init__ and Note.match *)

Lemma Note_init_run (w : World) (m : string) (t : Tags) :
  Note_init m t w =
  Ok (fresh (dom (note_heap w)))
     (set_note_heap
        (<[fresh (dom (note_heap w)) := mkNote m t (today w) (last_id w + 1)]>
           (note_heap w))
        (set_last_id (last_id w + 1) w)).
Proof. reflexivity. Qed.

Lemma fresh_note_None (w : World) : note_heap w !! fresh (dom (note_heap w)) = None.
Proof. apply not_elem_of_dom, is_fresh. Qed.

(** C6: [match] answers [True] exactly when the filter is a contiguous part
    of the memo, or is contained in the tags: as a contiguous part when the
    tags are a string, as an element when they are a list.  Characters are
    compared as they are.  A note made with memo [m] matches [m] and every
    contiguous part of [m]. *)
Theorem match_iff_contained (w : World) :
  (∀ self n flt, note_heap w !! self = Some n →
     ∃ b, Note_match self flt w = Ok b w ∧
          (b = true ↔ is_substring flt (memo n) ∨ in_tags flt (tags n))) ∧
  (∀ t pre x post, ∃ l w',
     Note_init (pre +:+ x +:+ post) t w = Ok l w' ∧
     Note_match l (pre +:+ x +:+ post) w' = Ok true w' ∧
     Note_match l x w' = Ok true w') ∧
  (∀ d k,
     note_matches (mkNote "Hello World" (TagsStr "to do") d k) "hello" = false ∧
     note_matches (mkNote "Hello World" (TagsStr "to do") d k) "lo Wo" = true ∧
     note_matches (mkNote "Hello World" (TagsStr "to do") d k) "o d" = true ∧
     note_matches (mkNote "hello" (TagsList ["greet"; "h"]) d k) "greet" = true ∧
     note_matches (mkNote "hello" (TagsList ["greet"; "h"]) d k) "gre" = false).
Proof.
  split_and!.
  - intros self n flt Hn. exists (note_matches n flt). split.
    + by apply Note_match_alloc.
    + apply note_matches_spec.
  - intros t pre x post. eexists _, _. rewrite Note_init_run.
    split; [done|].
    set (m := pre +:+ x +:+ post).
    set (n := mkNote m t (today w) (last_id w + 1)).
    assert (∀ y, is_substring y m → note_matches n y = true) as Hsub.
    { intros y Hy. apply note_matches_spec. by left. }
    split.
    + rewrite (Note_match_alloc _ _ n); [|simpl; by rewrite lookup_insert_eq].
      rewrite Hsub; [done|]. exists "", "". by rewrite app_empty_r.
    + rewrite (Note_match_alloc _ _ n); [|simpl; by rewrite lookup_insert_eq].
      rewrite Hsub; [done|]. by exists pre, post.
  - intros d k. by vm_compute.
Qed.

Lemma match_iff_contained_witness :
  note_heap demo_world !! demo_n2 = Some (mkNote "hello again" (TagsList ["greet"; "h"]) demo_date 2) ∧
  ∃ b, Note_match demo_n2 "greet" demo_world = Ok b demo_world ∧
       (b = true ↔ is_substring "greet" "hello again" ∨ "greet" ∈ ["greet"; "h"]).
Proof.
  split; [reflexivity|].
  apply (proj1 (match_iff_contained demo_world) demo_n2
           (mkNote "hello again" (TagsList ["greet"; "h"]) demo_date 2) "greet").
  reflexivity.
Defined.

(** C8: the empty filter matches every note, so [search] with the empty
    string returns the whole list of the notebook, in its order. *)
Theorem empty_filter_returns_all (w : World) (self : loc) (ns : list loc) :
  notebook_heap w !! self = Some ns →
  notes_alloc w ns →
  (∀ n, note_matches n "" = true) ∧
  (∀ l, l ∈ ns → Note_match l "" w = Ok true w) ∧
  Notebook_search self "" w = Ok ns w.
Proof.
  intros Hnb Hal. split_and!.
  - apply note_matches_empty.
  - intros l Hin. unfold notes_alloc in Hal. rewrite Forall_forall in Hal.
    destruct (Hal l Hin) as [n Hn].
    by rewrite (Note_match_alloc _ _ n), note_matches_empty.
  - unfold Notebook_search, bind, get_notes. rewrite Hnb.
    rewrite search_loop_filter by done. f_equal.
    clear Hnb. induction Hal as [|l ns [n Hn] _ IH]; [done|].
    simpl. unfold matches_in at 1. rewrite Hn, note_matches_empty.
    by rewrite IH.
Qed.

Lemma empty_filter_returns_all_witness :
  notebook_heap demo_world !! demo_nb = Some [demo_n1; demo_n2] ∧
  notes_alloc demo_world [demo_n1; demo_n2] ∧
  Notebook_search demo_nb "" demo_world = Ok [demo_n1; demo_n2] demo_world.
Proof.
  assert (notes_alloc demo_world [demo_n1; demo_n2]) as Hal.
  { repeat constructor; eexists; reflexivity. }
  split; [reflexivity|]. split; [exact Hal|].
  apply (empty_filter_returns_all demo_world demo_nb [demo_n1; demo_n2] eq_refl Hal).
Defined.

(** ** Notebook.new_note *)

(** C9: [new_note] makes one note and appends it to the list of the notebook:
    the list is the old one followed by the new reference, the new object is
    none of the old ones, every note that existed is as it was, the other
    notebooks are as they were, and the call returns nothing. *)
Theorem new_note_appends (w : World) (self : loc) (ns : list loc)
    (memo0 : string) (tags0 : Tags) :
  notebook_heap w !! self = Some ns →
  ∃ l w',
    Notebook_new_note self memo0 tags0 w = Ok tt w' ∧
    note_heap w !! l = None ∧
    note_heap w' !! l = Some (mkNote memo0 tags0 (today w) (last_id w + 1)) ∧
    notebook_heap w' !! self = Some (ns ++ [l]) ∧
    length (ns ++ [l]) = S (length ns) ∧
    (∀ l' n, note_heap w !! l' = Some n → note_heap w' !! l' = Some n) ∧
    (∀ l', l' ≠ l → note_heap w' !! l' = note_heap w !! l') ∧
    (∀ nb, nb ≠ self → notebook_heap w' !! nb = notebook_heap w !! nb).
Proof.
  intros Hnb. eexists (fresh (dom (note_heap w))), _.
  pose proof (fresh_note_None w) as Hfresh.
  split_and!.
  - unfold Notebook_new_note, bind at 1, get_notes. rewrite Hnb.
    unfold bind. rewrite Note_init_run. reflexivity.
  - done.
  - simpl. by rewrite lookup_insert_eq.
  - simpl. by rewrite lookup_insert_eq.
  - rewrite length_app. simpl. lia.
  - intros l' n Hn. simpl. rewrite lookup_insert_ne; [done|]. congruence.
  - intros l' Hne. simpl. by rewrite lookup_insert_ne.
  - intros nb Hne. simpl. by rewrite lookup_insert_ne.
Qed.

Lemma new_note_appends_witness :
  notebook_heap demo_world !! demo_nb = Some [demo_n1; demo_n2] ∧
  ∃ l w',
    Notebook_new_note demo_nb "third" (TagsStr "t") demo_world = Ok tt w' ∧
    note_heap demo_world !! l = None ∧
    note_heap w' !! l = Some (mkNote "third" (TagsStr "t") demo_date 3) ∧
    notebook_heap w' !! demo_nb = Some ([demo_n1; demo_n2] ++ [l]).
Proof.
  split; [reflexivity|].
  destruct (new_note_appends demo_world demo_nb [demo_n1; demo_n2] "third" (TagsStr "t")
              eq_refl) as (l & w' & Hrun & Hnew & Hnote & Hlist & _).
  exists l, w'. split; [exact Hrun|]. split; [exact Hnew|].
  split; [exact Hnote | exact Hlist].
Defined.

(** ** Menu.modify_note *)

Lemma notes_alloc_insert (w w1 : World) (ns : list loc) (l : loc) (n n1 : Note) :
  note_heap w !! l = Some n →
  note_heap w1 = <[l := n1]> (note_heap w) →
  notes_alloc w ns → notes_alloc w1 ns.
Proof.
  intros Hn Hw1 Hal. unfold notes_alloc.
  eapply Forall_impl; [exact Hal|]. simpl. intros l' [n' Hn'].
  rewrite Hw1. destruct (decide (l = l')) as [->|Hne].
  - rewrite lookup_insert_eq. eauto.
  - rewrite lookup_insert_ne by done. eauto.
Qed.

Lemma first_match_insert (w w1 : World) (ns : list loc) (note_id : IdArg)
    (l : loc) (n n1 : Note) :
  note_heap w !! l = Some n → id n1 = id n →
  note_heap w1 = <[l := n1]> (note_heap w) →
  first_match w1 ns note_id = first_match w ns note_id.
Proof.
  intros Hn Hid Hw1.
  assert (∀ l', id_matches w1 note_id l' = id_matches w note_id l') as Hext.
  { intros l'. unfold id_matches. rewrite Hw1.
    destruct (decide (l = l')) as [<-|Hne].
    - by rewrite lookup_insert_eq, Hn, Hid.
    - by rewrite lookup_insert_ne. }
  unfold first_match. induction ns as [|a ns IH]; simpl; [done|].
  by rewrite Hext, IH.
Qed.

(** What a modification does to a well-formed state, in one statement. *)
Lemma modify_at_effect (w : World) (self : loc) (ns : list loc) (note_id : IdArg)
    (upd : Note → Note) :
  notebook_heap w !! self = Some ns → notes_alloc w ns →
  (∀ n, id (upd n) = id n) →
  ∃ b w1, modify_at self note_id upd w = Ok b w1 ∧
    notebook_heap w1 = notebook_heap w ∧ stdin w1 = stdin w ∧
    stdout w1 = stdout w ∧ last_id w1 = last_id w ∧ today w1 = today w ∧
    notes_alloc w1 ns ∧
    first_match w1 ns note_id = first_match w ns note_id ∧
    match first_match w ns note_id with
    | Some l => ∃ n, note_heap w !! l = Some n ∧
                     note_heap w1 = <[l := upd n]> (note_heap w)
    | None => w1 = w
    end.
Proof.
  intros Hnb Hal Hupd. destruct (first_match w ns note_id) as [l|] eqn:Hf.
  - destruct (first_match_alloc _ _ _ _ Hf) as (_ & n & Hn & _).
    eexists true, _. split; [by apply (modify_at_found _ _ _ _ _ _ _ Hnb Hal Hf Hn)|].
    simpl. split_and!; try done.
    + by apply (notes_alloc_insert w _ ns l n (upd n)).
    + rewrite <- Hf.
      by apply (first_match_insert w _ ns note_id l n (upd n)).
    + by exists n.
  - exists false, w. by split; [apply (modify_at_missing _ _ _ _ _ Hnb Hal Hf)|].
Qed.

(** C7: [modify_note] reads an id, a memo and tags.  It calls [modify_memo]
    exactly when the memo line is not empty and [modify_tags] exactly when
    the tags line is not empty: an empty line leaves that attribute of every
    note as it was, a non-empty one is assigned to the note found.  When no
    note has the id, the handler ends normally, the notes are as before and
    nothing but the three prompts was written. *)
Theorem modify_note_nonempty_only (w : World) (self : Menu) (ns : list loc)
    (id0 memo0 tags0 : string) (rest : list string) :
  notebook_heap w !! notebook self = Some ns →
  notes_alloc w ns →
  stdin w = id0 :: memo0 :: tags0 :: rest →
  ∃ w1 w',
    Menu_modify_note self w = Ok tt w' ∧
    (memo0 ≠ "" → ∃ b, Notebook_modify_memo (notebook self) (IdStr id0) memo0
                         (after_prompts w rest) = Ok b w1) ∧
    (memo0 = "" → w1 = after_prompts w rest) ∧
    (tags0 ≠ "" → ∃ b, Notebook_modify_tags (notebook self) (IdStr id0)
                         (TagsStr tags0) w1 = Ok b w') ∧
    (tags0 = "" → w' = w1) ∧
    (memo0 = "" → ∀ l n, note_heap w !! l = Some n →
                  ∃ n', note_heap w' !! l = Some n' ∧ memo n' = memo n) ∧
    (tags0 = "" → ∀ l n, note_heap w !! l = Some n →
                  ∃ n', note_heap w' !! l = Some n' ∧ tags n' = tags n) ∧
    (memo0 ≠ "" → ∀ l, first_match w ns (IdStr id0) = Some l →
                  ∃ n', note_heap w' !! l = Some n' ∧ memo n' = memo0) ∧
    (tags0 ≠ "" → ∀ l, first_match w ns (IdStr id0) = Some l →
                  ∃ n', note_heap w' !! l = Some n' ∧ tags n' = TagsStr tags0) ∧
    (first_match w ns (IdStr id0) = None → note_heap w' = note_heap w) ∧
    stdout w' = stdout (after_prompts w rest) ∧
    stdin w' = rest ∧
    notebook_heap w' = notebook_heap w.
Proof.
  intros Hnb Hal Hin.
  set (w0 := after_prompts w rest).
  set (nid := IdStr id0).
  (* the two optional steps, as state transformers *)
  assert (∃ w1, (if str_truthy memo0
                 then ∃ b, modify_at (notebook self) nid (with_memo memo0) w0 = Ok b w1
                 else w1 = w0) ∧
            notebook_heap w1 = notebook_heap w ∧ stdin w1 = rest ∧
            stdout w1 = stdout w0 ∧ notes_alloc w1 ns ∧
            first_match w1 ns nid = first_match w ns nid ∧
            match first_match w ns nid with
            | Some l => ∃ n, note_heap w !! l = Some n ∧
                note_heap w1 = (if str_truthy memo0
                                then <[l := with_memo memo0 n]> (note_heap w)
                                else note_heap w)
            | None => note_heap w1 = note_heap w
            end) as (w1 & Hstep1 & Hnb1 & Hi1 & Ho1 & Hal1 & Hf1 & Hh1).
  { destruct (str_truthy memo0).
    - destruct (modify_at_effect w0 (notebook self) ns nid (with_memo memo0))
        as (b & w1 & Hrun & ? & ? & ? & _ & _ & ? & Hf & Hh); [done..|].
      exists w1. split_and!; try done; [by exists b|].
      change (first_match w0 ns nid) with (first_match w ns nid) in Hh.
      destruct (first_match w ns nid); [done | by rewrite Hh].
    - exists w0. split_and!; try done.
      destruct (first_match w ns nid) as [l|] eqn:Hf; [|done].
      destruct (first_match_alloc _ _ _ _ Hf) as (_ & n & Hn & _). by exists n. }
  assert (∃ w', (if str_truthy tags0
                 then ∃ b, modify_at (notebook self) nid (with_tags (TagsStr tags0)) w1
                           = Ok b w'
                 else w' = w1) ∧
            notebook_heap w' = notebook_heap w ∧ stdin w' = rest ∧
            stdout w' = stdout w0 ∧
            match first_match w ns nid with
            | Some l => ∃ n, note_heap w1 !! l = Some n ∧
                note_heap w' = (if str_truthy tags0
                                then <[l := with_tags (TagsStr tags0) n]> (note_heap w1)
                                else note_heap w1)
            | None => note_heap w' = note_heap w1
            end) as (w' & Hstep2 & Hnb2 & Hi2 & Ho2 & Hh2).
  { rewrite <- Hnb1 in Hnb. destruct (str_truthy tags0).
    - destruct (modify_at_effect w1 (notebook self) ns nid (with_tags (TagsStr tags0)))
        as (b & w' & Hrun & ? & ? & ? & _ & _ & ? & Hf & Hh); [done..|].
      exists w'. split_and!; try done; [by exists b| congruence..|].
      rewrite Hf1 in Hh. destruct (first_match w ns nid); [done | by rewrite Hh].
    - exists w1. split_and!; try done.
      rewrite <- Hf1. destruct (first_match w1 ns nid) as [l|] eqn:Hf; [|done].
      destruct (first_match_alloc _ _ _ _ Hf) as (_ & n & Hn & _). by exists n. }
  exists w1, w'.
  assert (Menu_modify_note self w = Ok tt w') as Hrun.
  { unfold Menu_modify_note. unfold bind at 1, input. rewrite Hin.
    unfold bind at 1. simpl stdin. unfold bind at 1. simpl stdin.
    rewrite modify_memo_at, modify_tags_at. fold nid. unfold bind at 1.
    match goal with
    | |- context [ (if str_truthy memo0 then _ else _) ?W ] => change W with w0
    end.
    destruct (str_truthy memo0).
    - destruct Hstep1 as [b1 Hb1]. unfold bind at 1. rewrite Hb1.
      unfold ret at 1. destruct (str_truthy tags0).
      + destruct Hstep2 as [b2 Hb2]. unfold bind. by rewrite Hb2.
      + by rewrite Hstep2.
    - rewrite <- Hstep1. unfold ret at 1. destruct (str_truthy tags0).
      + destruct Hstep2 as [b2 Hb2]. unfold bind. by rewrite Hb2.
      + by rewrite Hstep2. }
  split; [done|].
  pose proof (str_truthy_spec memo0) as Hm.
  pose proof (str_truthy_spec tags0) as Ht.
  split_and!.
  - intros Hne. apply Hm in Hne. by rewrite Hne in Hstep1.
  - intros He. destruct (str_truthy memo0); [|done]. by destruct Hm as [Hm _]; destruct Hm.
  - intros Hne. apply Ht in Hne. by rewrite Hne in Hstep2.
  - intros He. destruct (str_truthy tags0); [|done]. by destruct Ht as [Ht _]; destruct Ht.
  - intros -> l n Hn. simpl in Hh1.
    assert (note_heap w1 = note_heap w) as E1.
    { destruct (first_match w ns nid); [by destruct Hh1 as (? & _ & ?)|done]. }
    destruct (first_match w ns nid) as [l0|]; [|exists n; by rewrite Hh2, E1].
    destruct Hh2 as (n0 & Hn0 & Hh2). rewrite Hh2. destruct (str_truthy tags0).
    + destruct (decide (l0 = l)) as [->|Hne].
      * rewrite lookup_insert_eq. eexists. split; [done|]. simpl.
        rewrite E1 in Hn0. congruence.
      * rewrite lookup_insert_ne by done. exists n. by rewrite E1.
    + exists n. by rewrite E1.
  - intros -> l n Hn. simpl in Hh2.
    assert (note_heap w' = note_heap w1) as E2.
    { destruct (first_match w ns nid); [by destruct Hh2 as (? & _ & ?)|done]. }
    rewrite E2.
    destruct (first_match w ns nid) as [l0|]; [|exists n; by rewrite Hh1].
    destruct Hh1 as (n0 & Hn0 & Hh1). rewrite Hh1. destruct (str_truthy memo0).
    + destruct (decide (l0 = l)) as [->|Hne].
      * rewrite lookup_insert_eq. eexists. split; [done|]. simpl. congruence.
      * rewrite lookup_insert_ne by done. by exists n.
    + by exists n.
  - intros Hne l Hf. apply Hm in Hne. rewrite Hne, Hf in Hh1. rewrite Hf in Hh2.
    destruct Hh1 as (n & Hn & Hh1). destruct Hh2 as (n1 & Hn1 & Hh2).
    rewrite Hh1, lookup_insert_eq in Hn1. injection Hn1 as <-.
    rewrite Hh2. destruct (str_truthy tags0).
    + rewrite lookup_insert_eq. by eexists.
    + rewrite Hh1, lookup_insert_eq. by eexists.
  - intros Hne l Hf. apply Ht in Hne. rewrite Hf in Hh2. rewrite Hne in Hh2.
    destruct Hh2 as (n1 & Hn1 & Hh2). rewrite Hh2, lookup_insert_eq. by eexists.
  - intros Hf. rewrite Hf in Hh1, Hh2. congruence.
  - done.
  - done.
  - done.
Qed.

Lemma modify_note_nonempty_only_witness :
  notebook_heap demo_typing !! demo_nb = Some [demo_n1; demo_n2] ∧
  notes_alloc demo_typing [demo_n1; demo_n2] ∧
  stdin demo_typing = ["2"; "hi again"; ""] ∧
  ∃ w', Menu_modify_note (mkMenu demo_nb) demo_typing = Ok tt w' ∧
    (∃ n', note_heap w' !! demo_n2 = Some n' ∧ memo n' = "hi again") ∧
    (∃ n', note_heap w' !! demo_n2 = Some n' ∧ tags n' = TagsList ["greet"; "h"]) ∧
    stdout w' = "Enter a note id: Enter a memo: Enter tags: ".
Proof.
  assert (notes_alloc demo_typing [demo_n1; demo_n2]) as Hal.
  { repeat constructor; eexists; reflexivity. }
  split; [reflexivity|]. split; [exact Hal|]. split; [reflexivity|].
  destruct (modify_note_nonempty_only demo_typing (mkMenu demo_nb) [demo_n1; demo_n2]
              "2" "hi again" "" [] eq_refl Hal eq_refl)
    as (w1 & w' & Hrun & _ & _ & _ & _ & _ & Htags & Hmemo & _ & _ & Hout & _).
  exists w'. split; [exact Hrun|]. split; [|split].
  - apply (Hmemo ltac:(discriminate) demo_n2). reflexivity.
  - apply (Htags eq_refl demo_n2
             (mkNote "hello again" (TagsList ["greet"; "h"]) demo_date 2)).
    reflexivity.
  - exact Hout.
Defined.

(** ** Menu.show_notes and Menu.search_notes *)

(** Handing [show_notes] an empty list is handing it nothing: the test
    [if not notes] sends both to the notes of the notebook. *)
Lemma show_notes_empty_is_default (repr_str : string → string) (self : Menu) :
  Menu_show_notes repr_str self (Some []) = Menu_show_notes repr_str self None.
Proof. reflexivity. Qed.

(** A search that matches no note prints the whole notebook. *)
Lemma search_notes_no_match (repr_str : string → string) (w : World) (self : Menu)
    (ns : list loc) (flt : string) (rest : list string) :
  notebook_heap w !! notebook self = Some ns →
  notes_alloc w ns →
  stdin w = flt :: rest →
  Forall (λ l, matches_in w flt l = false) ns →
  Menu_search_notes repr_str self w =
  show_loop repr_str ns (set_stdin rest (set_stdout (stdout w +:+ "Search for: ") w)).
Proof.
  intros Hnb Hal Hin Hno.
  unfold Menu_search_notes, bind at 1, input. rewrite Hin.
  set (w0 := set_stdin rest _).
  unfold bind at 1, Notebook_search, bind at 1, get_notes.
  change (notebook_heap w0) with (notebook_heap w). rewrite Hnb.
  rewrite search_loop_filter by done.
  assert (List.filter (matches_in w0 flt) ns = []) as ->.
  { change (matches_in w0 flt) with (matches_in w flt).
    clear -Hno. induction Hno as [|l ns Hl _ IH]; [done|]. simpl. by rewrite Hl. }
  rewrite show_notes_empty_is_default.
  unfold Menu_show_notes, bind, get_notes. simpl.
  change (notebook_heap w0) with (notebook_heap w). by rewrite Hnb.
Qed.

(** A search that matches some note prints the notes found, and no other. *)
Lemma search_notes_some_match (repr_str : string → string) (w : World) (self : Menu)
    (ns : list loc) (flt : string) (rest : list string) :
  notebook_heap w !! notebook self = Some ns →
  notes_alloc w ns →
  stdin w = flt :: rest →
  List.filter (matches_in w flt) ns ≠ [] →
  Menu_search_notes repr_str self w =
  show_loop repr_str (List.filter (matches_in w flt) ns)
    (set_stdin rest (set_stdout (stdout w +:+ "Search for: ") w)).
Proof.
  intros Hnb Hal Hin Hsome.
  unfold Menu_search_notes, bind at 1, input. rewrite Hin.
  set (w0 := set_stdin rest _).
  unfold bind at 1, Notebook_search, bind at 1, get_notes.
  change (notebook_heap w0) with (notebook_heap w). rewrite Hnb.
  rewrite search_loop_filter by done.
  change (matches_in w0 flt) with (matches_in w flt).
  destruct (List.filter (matches_in w flt) ns) as [|l res]; [done|].
  reflexivity.
Qed.

(** C1, on the code: in a menu holding the single note ["hello"], the search
    for ["zzz"] finds no note, and [search_notes] nevertheless prints the
    record of that note after its prompt. *)
Theorem search_notes_no_match_prints_all (repr_str : string → string) (d : date) :
  ∃ m w1 w2,
    (m ← Menu_init; _ ← Menu_add_note m; ret m) (init_world d ["hello"; "zzz"])
      = Ok m w1 ∧
    Notebook_search (notebook m) "zzz" w1 = Ok [] w1 ∧
    Menu_search_notes repr_str m w1 = Ok tt w2 ∧
    stdout w2 = stdout w1 +:+ "Search for: " +:+ "1: " +:+ nl +:+ "hello" +:+ nl.
Proof.
  eexists _, _, _. split_and!.
  - by vm_compute.
  - by vm_compute.
  - by vm_compute.
  - by vm_compute.
Qed.

Lemma notes_alloc_mono (w w' : World) (ns : list loc) :
  (∀ l, is_Some (note_heap w !! l) → is_Some (note_heap w' !! l)) →
  notes_alloc w ns → notes_alloc w' ns.
Proof. intros Hmono Hal. eapply Forall_impl; [exact Hal|]. apply Hmono. Qed.

Lemma search_loop_state (w w' : World) (ns res : list loc) (flt : string) :
  search_loop ns flt w = Ok res w' → w' = w.
Proof.
  revert res. induction ns as [|l ns IH]; intros res; simpl.
  - by intros [= _ ->].
  - unfold bind at 1, Note_match, bind at 1, get_note.
    destruct (note_heap w !! l); [|done]. unfold ret at 1, bind at 1.
    destruct (search_loop ns flt w) as [r w1|] eqn:Hr; [|done].
    intros [= _ <-]. by apply (IH r).
Qed.

Lemma search_state (w w' : World) (self : loc) (res : list loc) (flt : string) :
  Notebook_search self flt w = Ok res w' → w' = w.
Proof.
  unfold Notebook_search, bind, get_notes.
  destruct (notebook_heap w !! self); [|done]. apply search_loop_state.
Qed.

Lemma step_post_refl (o : Op) (w : World) :
  creates o = false → op_dom o (dom (notebook_heap w)) = dom (notebook_heap w) →
  step_post o w None w.
Proof.
  intros Hc Hd. unfold step_post. rewrite Hc, Hd.
  split_and!; try done; [lia|]. intros l n Hn. by exists n.
Qed.

Lemma step_post_modify (o : Op) (w w' : World) (self : loc) (note_id : IdArg)
    (upd : Note → Note) (b : bool) :
  creates o = false → op_dom o (dom (notebook_heap w)) = dom (notebook_heap w) →
  (∀ n, id (upd n) = id n) →
  modify_at self note_id upd w = Ok b w' →
  step_post o w None w'.
Proof.
  intros Hc Hd Hupd Hrun. destruct b.
  - apply modify_at_true_inv in Hrun as (l & n & Hn & ->).
    unfold step_post. rewrite Hc, Hd. simpl. split_and!; try done; [lia|..].
    + intros l' n' Hn'. simpl. destruct (decide (l = l')) as [<-|Hne].
      * rewrite lookup_insert_eq. exists (upd n). split; [done|].
        rewrite Hupd. congruence.
      * rewrite lookup_insert_ne by done. by exists n'.
    + intros Hb l' n'. simpl. destruct (decide (l = l')) as [<-|Hne].
      * rewrite lookup_insert_eq. intros [= <-]. rewrite Hupd. by apply (Hb l).
      * rewrite lookup_insert_ne by done. apply Hb.
    + intros Hwf nb ns Hnb. apply (notes_alloc_insert w _ ns l n (upd n)); [done..|].
      by apply (Hwf nb).
  - apply modify_at_false_inv in Hrun as ->. by apply step_post_refl.
Qed.

Lemma run_op_post (o : Op) (w w' : World) (r : option Z) :
  run_op o w = Ok r w' → step_post o w r w'.
Proof.
  pose proof (fresh_note_None w) as Hfresh.
  destruct o as [m t| |nb m t|nb flt|nb nid m|nb nid t|d]; simpl.
  - (* Note(m, t) *)
    unfold bind at 1. rewrite Note_init_run. unfold bind, get_note. simpl.
    rewrite lookup_insert_eq. simpl. intros [= <- <-].
    unfold step_post. simpl. split_and!; try done.
    + intros l n Hn. exists n. simpl. rewrite lookup_insert_ne; [done|congruence].
    + intros Hb l n. simpl. rewrite lookup_insert_Some.
      intros [[_ <-]|[_ Hn]]; simpl; [lia|]. specialize (Hb l n Hn). lia.
    + intros Hwf nb ns Hnb. apply (notes_alloc_mono w); [|by apply (Hwf nb)].
      intros l [n Hn]. simpl. rewrite lookup_insert_ne; [eauto|congruence].
  - (* Notebook() *)
    intros [= <- <-]. unfold step_post. simpl. split_and!; try done; [lia|..].
    + intros l n Hn. by exists n.
    + intros Hwf nb ns. simpl. rewrite lookup_insert_Some.
      intros [[_ <-]|[_ Hnb]]; [constructor | by apply (Hwf nb)].
    + by rewrite dom_insert_L.
  - (* nb.new_note(m, t) *)
    unfold bind at 1, Notebook_new_note, bind at 1, get_notes.
    destruct (notebook_heap w !! nb) as [ns|] eqn:Hnb; [|done].
    unfold bind at 1. rewrite Note_init_run. unfold put_notes.
    unfold bind, get_notes, get_note.
    cbn [notebook_heap note_heap set_notebook_heap set_note_heap set_last_id].
    rewrite lookup_insert_eq, last_snoc.
    cbn [notebook_heap note_heap set_notebook_heap set_note_heap set_last_id].
    rewrite lookup_insert_eq. simpl.
    intros [= <- <-]. unfold step_post. simpl. split_and!; try done.
    + intros l n Hn. exists n. simpl. rewrite lookup_insert_ne; [done|congruence].
    + intros Hb l n. simpl. rewrite lookup_insert_Some.
      intros [[_ <-]|[_ Hn]]; simpl; [lia|]. specialize (Hb l n Hn). lia.
    + intros Hwf nb' ns'. simpl. rewrite lookup_insert_Some.
      intros [[_ <-]|[_ Hnb']].
      * apply Forall_app. split.
        -- apply (notes_alloc_mono w); [|by apply (Hwf nb)].
           intros l [n Hn]. simpl. rewrite lookup_insert_ne; [eauto|congruence].
        -- constructor; [|constructor]. simpl. rewrite lookup_insert_eq. eauto.
      * apply (notes_alloc_mono w); [|by apply (Hwf nb')].
        intros l [n Hn]. simpl. rewrite lookup_insert_ne; [eauto|congruence].
    + rewrite dom_insert_L. apply subseteq_union_1_L, singleton_subseteq_l.
      by apply elem_of_dom_2 in Hnb.
  - (* nb.search(flt) *)
    unfold bind. destruct (Notebook_search nb flt w) as [res w1|] eqn:Hs; [|done].
    intros [= <- <-]. apply search_state in Hs as ->. by apply step_post_refl.
  - (* nb.modify_memo(nid, m) *)
    unfold bind. rewrite modify_memo_at.
    destruct (modify_at nb nid (with_memo m) w) as [b w1|] eqn:Hm; [|done].
    intros [= <- <-].
    by apply (step_post_modify (OpModifyMemo nb nid m) w w1 nb nid (with_memo m) b).
  - (* nb.modify_tags(nid, t) *)
    unfold bind. rewrite modify_tags_at.
    destruct (modify_at nb nid (with_tags t) w) as [b w1|] eqn:Hm; [|done].
    intros [= <- <-].
    by apply (step_post_modify (OpModifyTags nb nid t) w w1 nb nid (with_tags t) b).
  - (* the date changes *)
    intros [= <- <-]. unfold step_post. simpl. split_and!; try done; [lia|].
    intros l n Hn. by exists n.
Qed.

Lemma run_op_total (o : Op) (w : World) :
  wf w → op_ok (dom (notebook_heap w)) o = true → ∃ r w', run_op o w = Ok r w'.
Proof.
  intros Hwf Hok.
  assert (∀ nb, bool_decide (nb ∈ dom (notebook_heap w)) = true →
                ∃ ns, notebook_heap w !! nb = Some ns ∧ notes_alloc w ns) as Hnb.
  { intros nb [ns Hns]%bool_decide_eq_true%elem_of_dom. exists ns. split; [done|].
    by apply (Hwf nb). }
  destruct o as [m t| |nb m t|nb flt|nb nid m|nb nid t|d]; simpl in *.
  - unfold bind at 1. rewrite Note_init_run. unfold bind, get_note. simpl.
    rewrite lookup_insert_eq. by eexists _, _.
  - by eexists _, _.
  - destruct (Hnb nb Hok) as (ns & Hns & _).
    unfold bind at 1, Notebook_new_note, bind at 1, get_notes. rewrite Hns.
    unfold bind at 1. rewrite Note_init_run. unfold put_notes.
    unfold bind, get_notes, get_note.
    cbn [notebook_heap note_heap set_notebook_heap set_note_heap set_last_id].
    rewrite lookup_insert_eq, last_snoc.
    cbn [notebook_heap note_heap set_notebook_heap set_note_heap set_last_id].
    rewrite lookup_insert_eq. by eexists _, _.
  - destruct (Hnb nb Hok) as (ns & Hns & Hal).
    unfold bind, Notebook_search, bind, get_notes. rewrite Hns.
    rewrite search_loop_filter by done. by eexists _, _.
  - destruct (Hnb nb Hok) as (ns & Hns & Hal).
    destruct (modify_at_effect w nb ns nid (with_memo m) Hns Hal)
      as (b & w1 & Hrun & _); [done|].
    unfold bind. rewrite modify_memo_at, Hrun. by eexists _, _.
  - destruct (Hnb nb Hok) as (ns & Hns & Hal).
    destruct (modify_at_effect w nb ns nid (with_tags t) Hns Hal)
      as (b & w1 & Hrun & _); [done|].
    unfold bind. rewrite modify_tags_at, Hrun. by eexists _, _.
  - by eexists _, _.
Qed.

Lemma count_creations_cons (o : Op) (ops : list Op) :
  count_creations (o :: ops) =
  if creates o then S (count_creations ops) else count_creations ops.
Proof. unfold count_creations. simpl. by destruct (creates o). Qed.

Lemma ids_kept_trans (w1 w2 w3 : World) :
  ids_kept w1 w2 → ids_kept w2 w3 → ids_kept w1 w3.
Proof.
  intros H12 H23 l n Hn. destruct (H12 l n Hn) as (n2 & Hn2 & Hid2).
  destruct (H23 l n2 Hn2) as (n3 & Hn3 & Hid3). exists n3. split; [done|congruence].
Qed.

(** A sequence of operations on existing notebooks runs to its end, and the
    ids it gives are the integers that follow the counter, one after the
    other. *)
Lemma run_ops_post (ops : list Op) (w : World) :
  wf w → ops_ok (dom (notebook_heap w)) ops = true →
  ∃ ids w', run_ops ops w = Ok ids w' ∧
    ids = seqZ (last_id w + 1) (Z.of_nat (count_creations ops)) ∧
    last_id w' = last_id w + Z.of_nat (count_creations ops) ∧
    ids_kept w w' ∧
    (ids_bounded w → ids_bounded w').
Proof.
  revert w. induction ops as [|o ops IH]; intros w Hwf Hok.
  - exists [], w. split_and!; try done.
    + unfold count_creations. simpl. lia.
    + intros l n Hn. by exists n.
  - simpl in Hok. apply andb_true_iff in Hok as [Ho Hops].
    destruct (run_op_total o w Hwf Ho) as (r & w1 & Hrun).
    destruct (run_op_post o w w1 r Hrun) as (Hr & Hlast & Hkept & Hbnd & Hwf1 & Hdom).
    rewrite <- Hdom in Hops.
    destruct (IH w1 (Hwf1 Hwf) Hops) as (ids & w' & Hrest & Hids & Hlast' & Hkept' & Hbnd').
    eexists _, w'. split_and!.
    + simpl. unfold bind at 1. rewrite Hrun. unfold bind at 1. rewrite Hrest.
      reflexivity.
    + rewrite count_creations_cons, Hr, Hids, Hlast.
      destruct (creates o); [|by rewrite Z.add_0_r].
      rewrite (seqZ_cons (last_id w + 1)) by lia. do 2 f_equal; lia.
    + rewrite count_creations_cons, Hlast', Hlast. destruct (creates o); lia.
    + by apply (ids_kept_trans w w1 w').
    + auto.
Qed.

(** C4: the notes made by one process, through [Note(...)] or through the
    [new_note] of any of its notebooks and whatever else happens in between,
    get the integers that follow the counter: as many ids as notes, each one
    more than the one before, hence all different and increasing.  Notes keep
    their ids, and a new id is the id of no note that existed. *)
Theorem created_ids_consecutive (ops : list Op) (w : World) :
  wf w → ops_ok (dom (notebook_heap w)) ops = true →
  ∃ ids w', run_ops ops w = Ok ids w' ∧
    ids = seqZ (last_id w + 1) (Z.of_nat (count_creations ops)) ∧
    length ids = count_creations ops ∧
    NoDup ids ∧
    (∀ i j a b, (i < j)%nat → ids !! i = Some a → ids !! j = Some b → a < b) ∧
    (∀ i a b, ids !! i = Some a → ids !! S i = Some b → b = a + 1) ∧
    last_id w' = last_id w + Z.of_nat (count_creations ops) ∧
    ids_kept w w' ∧
    (ids_bounded w →
     ids_bounded w' ∧ ∀ l n k, note_heap w !! l = Some n → k ∈ ids → id n ≠ k).
Proof.
  intros Hwf Hok.
  destruct (run_ops_post ops w Hwf Hok) as (ids & w' & Hrun & Hids & Hlast & Hkept & Hbnd).
  exists ids, w'. split_and!; try done.
  - rewrite Hids, length_seqZ. lia.
  - rewrite Hids. apply NoDup_seqZ.
  - rewrite Hids. intros i j a b Hij [-> _]%lookup_seqZ [-> _]%lookup_seqZ. lia.
  - rewrite Hids. intros i a b [-> _]%lookup_seqZ [-> _]%lookup_seqZ. lia.
  - intros Hb. split; [auto|]. intros l n k Hn Hk. rewrite Hids in Hk.
    apply elem_of_seqZ in Hk. specialize (Hb l n Hn). lia.
Qed.

Lemma created_ids_consecutive_witness :
  wf (init_world demo_date []) ∧
  ops_ok (dom (notebook_heap (init_world demo_date []))) demo_ops = true ∧
  ∃ ids w', run_ops demo_ops (init_world demo_date []) = Ok ids w' ∧
            ids = [1; 2; 3; 4] ∧ NoDup ids ∧ last_id w' = 4.
Proof.
  assert (wf (init_world demo_date [])) as Hwf.
  { intros nb ns H. simpl in H. rewrite lookup_empty in H. discriminate H. }
  split; [exact Hwf|]. split; [vm_compute; reflexivity|].
  destruct (created_ids_consecutive demo_ops (init_world demo_date []) Hwf)
    as (ids & w' & Hrun & Hids & _ & Hnd & _ & _ & Hlast & _).
  { vm_compute. reflexivity. }
  exists ids, w'. split; [exact Hrun|]. split; [exact Hids|].
  split; [exact Hnd | exact Hlast].
Defined.

(** * Further properties *)

(** ** The state only grows *)

Lemma extends_refl (w : World) : extends w w.
Proof.
  unfold extends. split_and!; try done.
  - by exists [].
  - exists "". by rewrite app_empty_r.
  - intros l n Hn. by exists n.
  - intros nb ns Hns. exists []. by rewrite app_nil_r.
Qed.

Lemma extends_trans (w1 w2 w3 : World) :
  extends w1 w2 → extends w2 w3 → extends w1 w3.
Proof.
  intros ([pre1 Hi1] & [post1 Ho1] & Hc1 & Hd1 & Hn1 & Hb1)
         ([pre2 Hi2] & [post2 Ho2] & Hc2 & Hd2 & Hn2 & Hb2).
  unfold extends. split_and!.
  - exists (pre1 ++ pre2). by rewrite Hi1, Hi2, app_assoc.
  - exists (post1 +:+ post2). by rewrite Ho2, Ho1, app_assoc_str.
  - lia.
  - congruence.
  - intros l n Hn. destruct (Hn1 l n Hn) as (n2 & Hl2 & Hid2 & Hcd2).
    destruct (Hn2 l n2 Hl2) as (n3 & Hl3 & Hid3 & Hcd3).
    exists n3. split_and!; [done|congruence..].
  - intros nb ns Hns. destruct (Hb1 nb ns Hns) as (ns1 & Hns1).
    destruct (Hb2 nb _ Hns1) as (ns2 & Hns2).
    exists (ns1 ++ ns2). by rewrite app_assoc.
Qed.

Lemma extending_pure {A} (m : M A) :
  (∀ w a w', m w = Ok a w' → w' = w) → extending m.
Proof. intros H w a w' Hrun. rewrite (H w a w' Hrun). apply extends_refl. Qed.

Lemma extending_ret {A} (a : A) : extending (ret a).
Proof. apply extending_pure. by intros w b w' [= _ ->]. Qed.

Lemma extending_bind {A B} (m : M A) (k : A → M B) :
  extending m → (∀ a, extending (k a)) → extending (bind m k).
Proof.
  intros Hm Hk w b w'. unfold bind.
  destruct (m w) as [a w1|e] eqn:Hrun; [|done].
  intros Hrun'. apply (extends_trans w w1 w'); [by apply (Hm w a) | by apply (Hk a w1 b)].
Qed.

Lemma get_note_state (l : loc) (w w' : World) (n : Note) :
  get_note l w = Ok n w' → w' = w ∧ note_heap w !! l = Some n.
Proof. unfold get_note. destruct (note_heap w !! l); [by intros [= -> ->] | done]. Qed.

Lemma get_notes_state (nb : loc) (w w' : World) (ns : list loc) :
  get_notes nb w = Ok ns w' → w' = w ∧ notebook_heap w !! nb = Some ns.
Proof.
  unfold get_notes. destruct (notebook_heap w !! nb); [by intros [= -> ->] | done].
Qed.

Lemma extending_get_note (l : loc) : extending (get_note l).
Proof. apply extending_pure. intros w n w' H. by apply get_note_state in H as [-> _]. Qed.

Lemma extending_get_notes (nb : loc) : extending (get_notes nb).
Proof. apply extending_pure. intros w n w' H. by apply get_notes_state in H as [-> _]. Qed.

Lemma extending_input (prompt : string) : extending (input prompt).
Proof.
  intros w a w'. unfold input. destruct (stdin w) as [|line rest] eqn:Hin; [done|].
  intros [= <- <-]. unfold extends. simpl. split_and!; try done.
  - exists [line]. by rewrite Hin.
  - by exists prompt.
  - intros l n Hn. by exists n.
  - intros nb ns Hns. exists []. by rewrite app_nil_r.
Qed.

Lemma extending_print (s : string) : extending (print s).
Proof.
  intros w a w' [= <- <-]. unfold extends. simpl. split_and!; try done.
  - by exists [].
  - by exists (s +:+ nl).
  - intros l n Hn. by exists n.
  - intros nb ns Hns. exists []. by rewrite app_nil_r.
Qed.

Lemma extending_Note_init (m : string) (t : Tags) : extending (Note_init m t).
Proof.
  intros w l w'. rewrite Note_init_run. intros [= <- <-].
  pose proof (fresh_note_None w) as Hfresh.
  unfold extends. simpl. split_and!; try done.
  - by exists [].
  - exists "". by rewrite app_empty_r.
  - lia.
  - intros l n Hn. exists n. rewrite lookup_insert_ne; [done|congruence].
  - intros nb ns Hns. exists []. by rewrite app_nil_r.
Qed.

Lemma extending_Notebook_init : extending Notebook_init.
Proof.
  intros w nb w' [= <- <-].
  assert (notebook_heap w !! fresh (dom (notebook_heap w)) = None) as Hfresh.
  { apply not_elem_of_dom, is_fresh. }
  unfold extends. simpl. split_and!; try done.
  - by exists [].
  - exists "". by rewrite app_empty_r.
  - intros l n Hn. by exists n.
  - intros nb ns Hns. exists []. rewrite app_nil_r.
    rewrite lookup_insert_ne; [done|congruence].
Qed.

Lemma new_note_run (w : World) (self : loc) (ns : list loc) (m : string) (t : Tags) :
  notebook_heap w !! self = Some ns →
  Notebook_new_note self m t w =
  Ok tt (set_notebook_heap
           (<[self := ns ++ [fresh (dom (note_heap w))]]> (notebook_heap w))
           (set_note_heap
              (<[fresh (dom (note_heap w)) := mkNote m t (today w) (last_id w + 1)]>
                 (note_heap w))
              (set_last_id (last_id w + 1) w))).
Proof.
  intros Hnb. unfold Notebook_new_note, bind at 1, get_notes. rewrite Hnb.
  unfold bind. by rewrite Note_init_run.
Qed.

Lemma new_note_stuck (w : World) (self : loc) (m : string) (t : Tags) :
  notebook_heap w !! self = None → Notebook_new_note self m t w = Raise Stuck.
Proof. intros Hnb. unfold Notebook_new_note, bind at 1, get_notes. by rewrite Hnb. Qed.

Lemma extending_new_note (self : loc) (m : string) (t : Tags) :
  extending (Notebook_new_note self m t).
Proof.
  intros w a w'. destruct (notebook_heap w !! self) as [ns|] eqn:Hnb.
  - rewrite (new_note_run _ _ ns) by done. intros [= <- <-].
    pose proof (fresh_note_None w) as Hfresh.
    unfold extends. simpl. split_and!; try done.
    + by exists [].
    + exists "". by rewrite app_empty_r.
    + lia.
    + intros l n Hn. exists n. rewrite lookup_insert_ne; [done|congruence].
    + intros nb ns0 Hns0. destruct (decide (self = nb)) as [<-|Hne].
      * rewrite lookup_insert_eq. exists [fresh (dom (note_heap w))]. congruence.
      * rewrite lookup_insert_ne by done. exists []. by rewrite app_nil_r.
  - by rewrite new_note_stuck.
Qed.

Lemma find_note_loop_state (w w' : World) (ns : list loc) (note_id : IdArg)
    (o : option loc) :
  find_note_loop ns note_id w = Ok o w' → w' = w.
Proof.
  induction ns as [|a ns IH]; simpl; [by intros [= _ ->]|].
  unfold bind, get_note. destruct (note_heap w !! a); [|done].
  destruct (String.eqb _ _); [by intros [= _ ->] | apply IH].
Qed.

Lemma find_note_state (w w' : World) (self : loc) (note_id : IdArg) (o : option loc) :
  Notebook__find_note self note_id w = Ok o w' → w' = w.
Proof.
  unfold Notebook__find_note, bind, get_notes.
  destruct (notebook_heap w !! self); [apply find_note_loop_state | done].
Qed.

Lemma extending_modify_at (self : loc) (note_id : IdArg) (upd : Note → Note) :
  (∀ n, id (upd n) = id n) → (∀ n, creation_date (upd n) = creation_date n) →
  extending (modify_at self note_id upd).
Proof.
  intros Hid Hcd w b w' Hrun. destruct b.
  - apply modify_at_true_inv in Hrun as (l & n & Hn & ->).
    unfold extends. simpl. split_and!; try done.
    + by exists [].
    + exists "". by rewrite app_empty_r.
    + intros l' n' Hn'. destruct (decide (l = l')) as [<-|Hne].
      * rewrite lookup_insert_eq. exists (upd n). rewrite Hid, Hcd.
        split_and!; [done|congruence..].
      * rewrite lookup_insert_ne by done. by exists n'.
    + intros nb ns Hns. exists []. by rewrite app_nil_r.
  - apply modify_at_false_inv in Hrun as ->. apply extends_refl.
Qed.

Lemma extending_show_loop (repr_str : string → string) (ns : list loc) :
  extending (show_loop repr_str ns).
Proof.
  induction ns as [|l ns IH]; simpl; [apply extending_ret|].
  apply extending_bind; [apply extending_get_note|]. intros n.
  apply extending_bind; [apply extending_print|]. by intros _.
Qed.

Lemma extending_show_notes (repr_str : string → string) (self : Menu)
    (notes : option (list loc)) :
  extending (Menu_show_notes repr_str self notes).
Proof.
  unfold Menu_show_notes. apply extending_bind.
  - destruct (negb _); [apply extending_get_notes | apply extending_ret].
  - intros ns. apply extending_show_loop.
Qed.

Lemma extending_search (self : loc) (flt : string) : extending (Notebook_search self flt).
Proof. apply extending_pure. intros w r w'. apply search_state. Qed.

(** X1: no method removes or rewinds anything.  When [Note(...)],
    [Notebook()], [new_note], [search], [_find_note], [modify_memo],
    [modify_tags] or a handler of the menu returns, input was only consumed,
    output only added, the counter is not lower, every note still exists
    with the id and creation date it had, and every notebook still has its
    list, at most continued. *)
Theorem methods_only_extend (repr_str : string → string) (self : Menu) (nb : loc) :
  (∀ m t, extending (Note_init m t)) ∧
  extending Notebook_init ∧
  (∀ m t, extending (Notebook_new_note nb m t)) ∧
  (∀ flt, extending (Notebook_search nb flt)) ∧
  (∀ note_id, extending (Notebook__find_note nb note_id)) ∧
  (∀ note_id v, extending (Notebook_modify_memo nb note_id v)) ∧
  (∀ note_id v, extending (Notebook_modify_tags nb note_id v)) ∧
  extending (Menu_display_menu self) ∧
  (∀ notes, extending (Menu_show_notes repr_str self notes)) ∧
  extending (Menu_search_notes repr_str self) ∧
  extending (Menu_add_note self) ∧
  extending (Menu_modify_note self).
Proof.
  assert (∀ note_id v, extending (Notebook_modify_memo nb note_id v)) as Hmemo.
  { intros note_id v. rewrite modify_memo_at. by apply extending_modify_at. }
  assert (∀ note_id v, extending (Notebook_modify_tags nb note_id v)) as Htags.
  { intros note_id v. rewrite modify_tags_at. by apply extending_modify_at. }
  split_and!.
  - apply extending_Note_init.
  - apply extending_Notebook_init.
  - apply extending_new_note.
  - apply extending_search.
  - intros note_id. apply extending_pure. intros w o w'. apply find_note_state.
  - done.
  - done.
  - apply extending_print.
  - apply extending_show_notes.
  - unfold Menu_search_notes.
    apply extending_bind; [apply extending_input|]. intros flt.
    apply extending_bind; [apply extending_search|]. intros notes.
    apply extending_show_notes.
  - unfold Menu_add_note.
    apply extending_bind; [apply extending_input|]. intros m.
    apply extending_bind; [apply extending_new_note|]. intros _.
    apply extending_print.
  - unfold Menu_modify_note.
    apply extending_bind; [apply extending_input|]. intros id0.
    apply extending_bind; [apply extending_input|]. intros memo0.
    apply extending_bind; [apply extending_input|]. intros tags0.
    apply extending_bind.
    + destruct (str_truthy memo0); [|apply extending_ret].
      apply extending_bind; [|intros _; apply extending_ret].
      rewrite modify_memo_at. by apply extending_modify_at.
    + intros _. destruct (str_truthy tags0); [|apply extending_ret].
      apply extending_bind; [|intros _; apply extending_ret].
      rewrite modify_tags_at. by apply extending_modify_at.
Qed.

Lemma methods_only_extend_witness :
  ∃ w', Notebook_modify_memo demo_nb (IdInt 1) "hi world" demo_world = Ok true w' ∧
        extends demo_world w'.
Proof.
  eexists. split; [vm_compute; reflexivity|].
  apply (proj1 (proj2 (proj2 (proj2 (proj2 (proj2
           (methods_only_extend (λ s, s) (mkMenu demo_nb) demo_nb))))))
           (IdInt 1) "hi world" demo_world true).
  vm_compute. reflexivity.
Defined.

(** ** What the menu writes *)

Lemma set_stdout_same (w : World) : set_stdout (stdout w) w = w.
Proof. by destruct w. Qed.

Lemma show_loop_run (repr_str : string → string) (ns : list loc) (w : World) :
  notes_alloc w ns →
  show_loop repr_str ns w =
  Ok tt (set_stdout (stdout w +:+ render_notes repr_str (note_heap w) ns) w).
Proof.
  revert w. induction ns as [|l ns IH]; intros w Hal.
  - simpl. by rewrite app_empty_r, set_stdout_same.
  - apply Forall_cons in Hal as [[n Hn] Hal]. simpl.
    unfold bind at 1, get_note. rewrite Hn. unfold bind, print.
    rewrite (IH (set_stdout (stdout w +:+ format_note repr_str n +:+ nl) w)) by done.
    unfold set_stdout. simpl. by rewrite app_assoc_str.
Qed.

(** X2: [show_notes] without argument writes the two lines of every note of
    the notebook, in the order of its list, and changes nothing else; so does
    [show_notes] for the non-empty list it is given.  For an empty notebook
    nothing is written. *)
Theorem show_notes_output (repr_str : string → string) (w : World) (self : Menu)
    (ns : list loc) :
  notebook_heap w !! notebook self = Some ns →
  notes_alloc w ns →
  Menu_show_notes repr_str self None w =
    Ok tt (set_stdout (stdout w +:+ render_notes repr_str (note_heap w) ns) w) ∧
  (∀ l res, notes_alloc w (l :: res) →
     Menu_show_notes repr_str self (Some (l :: res)) w =
     Ok tt (set_stdout (stdout w +:+ render_notes repr_str (note_heap w) (l :: res)) w)) ∧
  (ns = [] → Menu_show_notes repr_str self None w = Ok tt w).
Proof.
  intros Hnb Hal.
  assert (Menu_show_notes repr_str self None w =
          Ok tt (set_stdout (stdout w +:+ render_notes repr_str (note_heap w) ns) w))
    as Hall.
  { unfold Menu_show_notes, bind, get_notes. simpl. rewrite Hnb.
    by apply show_loop_run. }
  split_and!.
  - done.
  - intros l res Hres. unfold Menu_show_notes, bind. simpl negb. cbv iota.
    unfold ret at 1. by apply show_loop_run.
  - intros ->. rewrite Hall. simpl. by rewrite app_empty_r, set_stdout_same.
Qed.

Lemma show_notes_output_witness :
  notebook_heap demo_world !! notebook (mkMenu demo_nb) = Some [demo_n1; demo_n2] ∧
  notes_alloc demo_world [demo_n1; demo_n2] ∧
  ∃ w', Menu_show_notes (λ s, "'" +:+ s +:+ "'") (mkMenu demo_nb) None demo_world
          = Ok tt w' ∧
        stdout w' = "1: " +:+ nl +:+ "hello world" +:+ nl +:+
                    "2: ['greet', 'h']" +:+ nl +:+ "hello again" +:+ nl.
Proof.
  assert (notes_alloc demo_world [demo_n1; demo_n2]) as Hal.
  { repeat constructor; eexists; reflexivity. }
  split; [reflexivity|]. split; [exact Hal|].
  eexists. split.
  - apply (proj1 (show_notes_output (λ s, "'" +:+ s +:+ "'") demo_world
                    (mkMenu demo_nb) [demo_n1; demo_n2] eq_refl Hal)).
  - vm_compute. reflexivity.
Defined.

(** X3: when some note matches, [search_notes] reads one line, writes its
    prompt and then the two lines of each matching note, in the order of the
    notebook, and changes nothing else. *)
Theorem search_notes_output (repr_str : string → string) (w : World) (self : Menu)
    (ns : list loc) (flt : string) (rest : list string) :
  notebook_heap w !! notebook self = Some ns →
  notes_alloc w ns →
  stdin w = flt :: rest →
  List.filter (matches_in w flt) ns ≠ [] →
  Menu_search_notes repr_str self w =
  Ok tt (set_stdin rest
           (set_stdout
              (stdout w +:+ "Search for: " +:+
               render_notes repr_str (note_heap w) (List.filter (matches_in w flt) ns))
              w)).
Proof.
  intros Hnb Hal Hin Hsome.
  rewrite (search_notes_some_match repr_str w self ns flt rest) by done.
  rewrite show_loop_run.
  - unfold set_stdin, set_stdout. simpl. by rewrite app_assoc_str.
  - unfold notes_alloc in *. simpl. rewrite Forall_forall in Hal.
    apply Forall_forall. intros l Hl. apply Hal.
    apply list_elem_of_In. apply list_elem_of_In, filter_In in Hl. tauto.
Qed.

Lemma search_notes_output_witness :
  ∃ w', Menu_search_notes (λ s, s) (mkMenu demo_nb)
          (set_stdin ["again"] demo_world) = Ok tt w' ∧
        stdout w' = "Search for: 2: [greet, h]" +:+ nl +:+ "hello again" +:+ nl ∧
        stdin w' = [].
Proof.
  eexists. split.
  - apply (search_notes_output (λ s, s) (set_stdin ["again"] demo_world) (mkMenu demo_nb)
             [demo_n1; demo_n2] "again" []).
    + reflexivity.
    + repeat constructor; eexists; reflexivity.
    + reflexivity.
    + vm_compute. discriminate.
  - split; vm_compute; reflexivity.
Defined.

(** ** Menu.add_note and the end of the input *)

(** X4: [add_note] reads one line and stores it as it is, empty or not: the
    notebook gets one new note at the end of its list, with that memo, the
    empty string for tags, today's date and the next id; the confirmation is
    written after the prompt. *)
Theorem add_note_effect (w : World) (self : Menu) (ns : list loc) (m : string)
    (rest : list string) :
  notebook_heap w !! notebook self = Some ns →
  stdin w = m :: rest →
  ∃ l w', Menu_add_note self w = Ok tt w' ∧
    note_heap w !! l = None ∧
    note_heap w' = <[l := mkNote m (TagsStr "") (today w) (last_id w + 1)]> (note_heap w) ∧
    notebook_heap w' = <[notebook self := ns ++ [l]]> (notebook_heap w) ∧
    last_id w' = last_id w + 1 ∧
    today w' = today w ∧
    stdin w' = rest ∧
    stdout w' = stdout w +:+ "Enter a memo: " +:+ "Your note has been added." +:+ nl.
Proof.
  intros Hnb Hin. exists (fresh (dom (note_heap w))). eexists. split.
  - unfold Menu_add_note, bind at 1, input. rewrite Hin.
    unfold bind at 1. rewrite (new_note_run _ _ ns) by done.
    reflexivity.
  - simpl. split_and!; try done.
    + apply fresh_note_None.
    + by rewrite app_assoc_str.
Qed.

Lemma add_note_effect_witness :
  notebook_heap demo_typing !! notebook (mkMenu demo_nb) = Some [demo_n1; demo_n2] ∧
  stdin demo_typing = "2" :: ["hi again"; ""] ∧
  ∃ l w', Menu_add_note (mkMenu demo_nb) demo_typing = Ok tt w' ∧
          note_heap w' !! l = Some (mkNote "2" (TagsStr "") demo_date 3) ∧
          stdin w' = ["hi again"; ""].
Proof.
  split; [reflexivity|]. split; [reflexivity|].
  destruct (add_note_effect demo_typing (mkMenu demo_nb) [demo_n1; demo_n2] "2"
              ["hi again"; ""] eq_refl eq_refl)
    as (l & w' & Hrun & _ & Hheap & _ & _ & _ & Hin & _).
  exists l, w'. split; [exact Hrun|]. split; [|exact Hin].
  rewrite Hheap. apply lookup_insert_eq.
Defined.

(** X5: a handler that asks for a line when none is left raises [EOFError]:
    [search_notes], [add_note] and a turn of the loop on an empty input, and
    [modify_note] as soon as fewer than three lines are left, whatever they
    are. *)
Theorem handlers_need_input (repr_str : string → string) (self : Menu) (w : World) :
  (stdin w = [] →
     Menu_search_notes repr_str self w = Raise EOFError ∧
     Menu_add_note self w = Raise EOFError ∧
     run_body repr_str self w = Abort EOFError) ∧
  ((length (stdin w) < 3)%nat → Menu_modify_note self w = Raise EOFError).
Proof.
  split.
  - intros Hin. split_and!.
    + unfold Menu_search_notes, bind, input. by rewrite Hin.
    + unfold Menu_add_note, bind, input. by rewrite Hin.
    + unfold run_body, bind, Menu_display_menu, print, input. simpl. by rewrite Hin.
  - intros Hlen. unfold Menu_modify_note.
    destruct (stdin w) as [|a [|b [|c rest]]] eqn:Hin.
    + unfold bind at 1, input. by rewrite Hin.
    + unfold bind at 1, input. rewrite Hin. unfold bind at 1. by simpl.
    + unfold bind at 1, input. rewrite Hin. unfold bind at 1. simpl stdin.
      unfold bind at 1. by simpl.
    + simpl in Hlen. lia.
Qed.

Lemma handlers_need_input_witness :
  (length (stdin (set_stdin ["1"; "new memo"] demo_world)) < 3)%nat ∧
  Menu_modify_note (mkMenu demo_nb) (set_stdin ["1"; "new memo"] demo_world)
    = Raise EOFError.
Proof.
  split; [simpl; lia|].
  apply (proj2 (handlers_need_input (λ s, s) (mkMenu demo_nb)
                  (set_stdin ["1"; "new memo"] demo_world))).
  simpl. lia.
Defined.

(** ** One turn of the loop *)

Lemma run_body_read (repr_str : string → string) (self : Menu) (w : World)
    (c : string) (rest : list string) :
  stdin w = c :: rest →
  run_body repr_str self w =
  match choices c with
  | Some a => call_action repr_str self a (after_choice w rest)
  | None => iter_of (print (c +:+ " is not a valid choice") (after_choice w rest))
  end.
Proof.
  intros Hin. unfold run_body, bind, Menu_display_menu, print, input. simpl.
  by rewrite Hin.
Qed.

Lemma choices_None (c : string) : choices c = None ↔ c ∉ valid_choices.
Proof.
  unfold choices, valid_choices.
  rewrite !not_elem_of_cons.
  destruct (String.eqb_spec c "1") as [->|H1]; [by split; [|intros [? _]]|].
  destruct (String.eqb_spec c "2") as [->|H2]; [by split; [|intros (_ & ? & _)]|].
  destruct (String.eqb_spec c "3") as [->|H3]; [by split; [|intros (_ & _ & ? & _)]|].
  destruct (String.eqb_spec c "4") as [->|H4];
    [by split; [|intros (_ & _ & _ & ? & _)]|].
  destruct (String.eqb_spec c "5") as [->|H5];
    [by split; [|intros (_ & _ & _ & _ & ? & _)]|].
  split; [intros _|done]. split_and!; try done. apply not_elem_of_nil.
Qed.

(** X6: a line that is none of ["1"] to ["5"], the empty line and a choice
    with a space around it included, is answered by
    [<line> is not a valid choice]; the loop goes on and nothing but the
    input and the output has changed. *)
Theorem invalid_choice_reprompts (repr_str : string → string) (self : Menu)
    (w : World) (c : string) (rest : list string) :
  stdin w = c :: rest →
  c ∉ valid_choices →
  run_body repr_str self w =
  Continue
    (set_stdin rest
       (set_stdout
          (stdout w +:+ menu_text +:+ nl +:+ "Enter an option: " +:+
           c +:+ " is not a valid choice" +:+ nl)
          w)).
Proof.
  intros Hin Hc. rewrite (run_body_read _ _ _ c rest) by done.
  apply choices_None in Hc as ->. unfold iter_of, print, after_choice.
  unfold set_stdin, set_stdout. simpl. do 2 f_equal.
  by rewrite !app_assoc_str.
Qed.

Lemma invalid_choice_reprompts_witness :
  stdin (set_stdin [" 1"; "5"] demo_world) = " 1" :: ["5"] ∧
  (" 1" ∉ valid_choices) ∧
  ∃ w', run_body (λ s, s) (mkMenu demo_nb) (set_stdin [" 1"; "5"] demo_world)
          = Continue w' ∧
        stdin w' = ["5"] ∧ same_store demo_world w'.
Proof.
  assert (" 1" ∉ valid_choices) as Hc.
  { apply choices_None. reflexivity. }
  split; [reflexivity|]. split; [exact Hc|].
  eexists. split.
  - apply (invalid_choice_reprompts (λ s, s) (mkMenu demo_nb)
             (set_stdin [" 1"; "5"] demo_world) " 1" ["5"] eq_refl Hc).
  - split; [reflexivity|]. repeat split.
Defined.

(** X7: the choice ["5"] writes the farewell and ends the process with
    status 0, in the first turn of [run] whatever the bound; the lines that
    follow are not read and no note, notebook or counter has changed. *)
Theorem quit_exits_zero (repr_str : string → string) (self : Menu) (w : World)
    (rest : list string) (fuel : nat) :
  stdin w = "5" :: rest →
  ∃ w', run_body repr_str self w = Exit 0 w' ∧
        Menu_run repr_str (S fuel) self w = Exited 0 w' ∧
        stdout w' = stdout w +:+ menu_text +:+ nl +:+ "Enter an option: " +:+
                    "Thank you for using your notebook today." +:+ nl ∧
        stdin w' = rest ∧
        same_store w w'.
Proof.
  intros Hin.
  exists (set_stdout
            (stdout (after_choice w rest) +:+
             "Thank you for using your notebook today." +:+ nl)
            (after_choice w rest)).
  assert (run_body repr_str self w =
          Exit 0 (set_stdout
                    (stdout (after_choice w rest) +:+
                     "Thank you for using your notebook today." +:+ nl)
                    (after_choice w rest))) as Hbody.
  { rewrite (run_body_read _ _ _ "5" rest) by done. reflexivity. }
  split; [exact Hbody|]. split; [simpl; by rewrite Hbody|].
  simpl. split_and!; try done. by rewrite !app_assoc_str.
Qed.

Lemma quit_exits_zero_witness :
  stdin (set_stdin ["5"; "1"] demo_world) = "5" :: ["1"] ∧
  ∃ w', Menu_run (λ s, s) 1 (mkMenu demo_nb) (set_stdin ["5"; "1"] demo_world)
          = Exited 0 w' ∧ stdin w' = ["1"].
Proof.
  split; [reflexivity|].
  destruct (quit_exits_zero (λ s, s) (mkMenu demo_nb) (set_stdin ["5"; "1"] demo_world)
              ["1"] 0 eq_refl) as (w' & _ & Hrun & _ & Hin & _).
  exists w'. split; [exact Hrun | exact Hin].
Defined.

(** ** The loop ends *)

Lemma extending_search_notes (repr_str : string → string) (self : Menu) :
  extending (Menu_search_notes repr_str self).
Proof.
  unfold Menu_search_notes.
  apply extending_bind; [apply extending_input|]. intros flt.
  apply extending_bind; [apply extending_search|]. intros notes.
  apply extending_show_notes.
Qed.

Lemma extending_add_note (self : Menu) : extending (Menu_add_note self).
Proof.
  unfold Menu_add_note.
  apply extending_bind; [apply extending_input|]. intros m.
  apply extending_bind; [apply extending_new_note|]. intros _.
  apply extending_print.
Qed.

Lemma extending_modify_note (self : Menu) : extending (Menu_modify_note self).
Proof.
  unfold Menu_modify_note.
  apply extending_bind; [apply extending_input|]. intros id0.
  apply extending_bind; [apply extending_input|]. intros memo0.
  apply extending_bind; [apply extending_input|]. intros tags0.
  apply extending_bind.
  - destruct (str_truthy memo0); [|apply extending_ret].
    apply extending_bind; [|intros _; apply extending_ret].
    rewrite modify_memo_at. by apply extending_modify_at.
  - intros _. destruct (str_truthy tags0); [|apply extending_ret].
    apply extending_bind; [|intros _; apply extending_ret].
    rewrite modify_tags_at. by apply extending_modify_at.
Qed.

Lemma iter_of_Continue (m : M unit) (w w' : World) :
  extending m → iter_of (m w) = Continue w' → extends w w'.
Proof.
  intros Hm. unfold iter_of. destruct (m w) as [[] w1|e] eqn:Hrun; [|done].
  intros [= <-]. by apply (Hm w tt).
Qed.

Lemma iter_of_not_Exit (r : result unit) (status : Z) (w' : World) :
  iter_of r ≠ Exit status w'.
Proof. by destruct r. Qed.

Lemma call_action_extends (repr_str : string → string) (self : Menu) (a : action)
    (w : World) :
  (∀ w', call_action repr_str self a w = Continue w' → extends w w') ∧
  (∀ status w', call_action repr_str self a w = Exit status w' →
                status = 0 ∧ extends w w').
Proof.
  destruct a; simpl.
  - split; [intros w'; apply iter_of_Continue, extending_show_notes|].
    intros s w' H. by apply iter_of_not_Exit in H.
  - split; [intros w'; apply iter_of_Continue, extending_search_notes|].
    intros s w' H. by apply iter_of_not_Exit in H.
  - split; [intros w'; apply iter_of_Continue, extending_add_note|].
    intros s w' H. by apply iter_of_not_Exit in H.
  - split; [intros w'; apply iter_of_Continue, extending_modify_note|].
    intros s w' H. by apply iter_of_not_Exit in H.
  - unfold Menu_quit. simpl. split; [done|].
    intros s w' [= <- <-]. split; [done|].
    by apply (extending_print "Thank you for using your notebook today." w tt).
Qed.

Lemma extends_after_choice (w : World) (c : string) (rest : list string) :
  stdin w = c :: rest → extends w (after_choice w rest).
Proof.
  intros Hin. unfold extends, after_choice. simpl. split_and!; try done.
  - exists [c]. by rewrite Hin.
  - eexists. by rewrite !app_assoc_str.
  - intros l n Hn. by exists n.
  - intros nb ns Hns. exists []. by rewrite app_nil_r.
Qed.

Lemma extends_stdin_length (w w' : World) :
  extends w w' → (length (stdin w') ≤ length (stdin w))%nat.
Proof. intros ([pre Hpre] & _). rewrite Hpre, length_app. lia. Qed.

(** A turn that does not end the loop has read at least one line. *)
Lemma run_body_progress (repr_str : string → string) (self : Menu) (w : World) :
  (∀ w', run_body repr_str self w = Continue w' →
         (length (stdin w') < length (stdin w))%nat ∧ extends w w') ∧
  (∀ status w', run_body repr_str self w = Exit status w' →
                status = 0 ∧ extends w w').
Proof.
  destruct (stdin w) as [|c rest] eqn:Hin.
  - assert (run_body repr_str self w = Abort EOFError) as ->; [|done].
    unfold run_body, bind, Menu_display_menu, print, input. simpl. by rewrite Hin.
  - rewrite (run_body_read _ _ _ c rest) by done.
    pose proof (extends_after_choice w c rest Hin) as Hext0.
    assert (∀ w', extends (after_choice w rest) w' →
                  (length (stdin w') < length (c :: rest))%nat ∧ extends w w') as Hstep.
    { intros w' Hext. split; [|by apply (extends_trans _ (after_choice w rest))].
      apply extends_stdin_length in Hext. simpl in *. lia. }
    destruct (choices c) as [a|].
    + destruct (call_action_extends repr_str self a (after_choice w rest)) as [Hc He].
      split.
      * intros w' Hrun. by apply Hstep, Hc.
      * intros s w' Hrun. destruct (He s w' Hrun) as [-> Hext].
        split; [done|]. by apply (extends_trans _ (after_choice w rest)).
    + split.
      * intros w' Hrun. apply Hstep.
        apply (iter_of_Continue (print (c +:+ " is not a valid choice")));
          [apply extending_print | exact Hrun].
      * intros s w' H. by apply iter_of_not_Exit in H.
Qed.

Lemma run_fuel_enough (repr_str : string → string) (self : Menu) (fuel1 fuel2 : nat)
    (w : World) :
  (length (stdin w) < fuel1)%nat → (length (stdin w) < fuel2)%nat →
  Menu_run repr_str fuel1 self w = Menu_run repr_str fuel2 self w.
Proof.
  revert fuel2 w. induction fuel1 as [|k IH]; intros fuel2 w H1 H2; [lia|].
  destruct fuel2 as [|k2]; [lia|]. simpl.
  destruct (run_body repr_str self w) as [w1| |] eqn:Hbody; [|done..].
  apply (proj1 (run_body_progress repr_str self w)) in Hbody as [Hlt _].
  apply IH; lia.
Qed.

(** X8: [run] always ends when the input is finite: with one more turn than
    there are lines, the loop is left by [sys.exit(0)], the only exit status
    there is, or by an exception; further turns change nothing, and at the
    exit the state only grew. *)
Theorem run_terminates (repr_str : string → string) (self : Menu) (fuel : nat)
    (w : World) :
  (length (stdin w) < fuel)%nat →
  ((∃ w', Menu_run repr_str fuel self w = Exited 0 w' ∧ extends w w') ∨
   (∃ e, Menu_run repr_str fuel self w = Failed e)) ∧
  (∀ fuel', (fuel ≤ fuel')%nat →
            Menu_run repr_str fuel' self w = Menu_run repr_str fuel self w).
Proof.
  intros Hfuel. split.
  - revert w Hfuel. induction fuel as [|k IH]; intros w Hfuel; [lia|]. simpl.
    destruct (run_body repr_str self w) as [w1|s w1|e] eqn:Hbody.
    + apply (proj1 (run_body_progress repr_str self w)) in Hbody as [Hlt Hext].
      destruct (IH w1) as [(w' & Hrun & Hext')|[e He]]; [lia| |].
      * left. exists w'. split; [done|]. by apply (extends_trans w w1).
      * right. by exists e.
    + apply (proj2 (run_body_progress repr_str self w)) in Hbody as [-> Hext].
      left. by exists w1.
    + right. by exists e.
  - intros fuel' Hle. apply run_fuel_enough; lia.
Qed.

Lemma run_terminates_witness :
  (length (stdin (set_stdin ["3"; "third"; "9"; "5"] demo_world)) < 5)%nat ∧
  ((∃ w', Menu_run (λ s, s) 5 (mkMenu demo_nb)
            (set_stdin ["3"; "third"; "9"; "5"] demo_world) = Exited 0 w' ∧
          extends (set_stdin ["3"; "third"; "9"; "5"] demo_world) w') ∨
   (∃ e, Menu_run (λ s, s) 5 (mkMenu demo_nb)
           (set_stdin ["3"; "third"; "9"; "5"] demo_world) = Failed e)).
Proof.
  split; [simpl; lia|].
  apply (run_terminates (λ s, s) (mkMenu demo_nb) 5
           (set_stdin ["3"; "third"; "9"; "5"] demo_world)).
  simpl. lia.
Defined.

(** ** A session at the menu *)

Lemma menu_inv_same_store (self : Menu) (w w' : World) :
  same_store w w' → menu_inv self w → menu_inv self w'.
Proof.
  intros (Hl & _ & Hn & Hb) (ns & Hnb & Hal & Hids & Hpos & Htxt).
  exists ns. unfold notes_alloc, ids_of in *. rewrite Hl, Hn, Hb.
  split_and!; done.
Qed.

Lemma ids_of_ext (w w' : World) (ns : list loc) :
  (∀ l, l ∈ ns → id <$> note_heap w' !! l = id <$> note_heap w !! l) →
  ids_of w' ns = ids_of w ns.
Proof.
  unfold ids_of. induction ns as [|a ns IH]; intros Hext; [done|].
  csimpl. rewrite (Hext a) by (apply elem_of_cons; auto).
  rewrite IH; [done|]. intros l Hl. apply Hext, elem_of_cons. auto.
Qed.

Lemma show_notes_total (repr_str : string → string) (self : Menu) (w : World)
    (ns : list loc) (notes : option (list loc)) :
  notebook_heap w !! notebook self = Some ns → notes_alloc w ns →
  (∀ res, notes = Some res → notes_alloc w res) →
  ∃ out, Menu_show_notes repr_str self notes w = Ok tt (set_stdout out w).
Proof.
  intros Hnb Hal Hres. unfold Menu_show_notes, bind.
  destruct notes as [[|l res]|]; cbn [notes_truthy negb].
  - unfold get_notes. rewrite Hnb, show_loop_run by done. eauto.
  - change (default [] (Some (l :: res))) with (l :: res).
    unfold ret at 1. cbv beta iota.
    rewrite show_loop_run by (by apply Hres). eauto.
  - unfold get_notes. rewrite Hnb, show_loop_run by done. eauto.
Qed.

Lemma search_notes_total (repr_str : string → string) (self : Menu) (w : World)
    (ns : list loc) (flt : string) (rest : list string) :
  notebook_heap w !! notebook self = Some ns → notes_alloc w ns →
  stdin w = flt :: rest →
  ∃ out, Menu_search_notes repr_str self w = Ok tt (set_stdin rest (set_stdout out w)).
Proof.
  intros Hnb Hal Hin.
  unfold Menu_search_notes, bind at 1, input. rewrite Hin.
  set (w0 := set_stdin rest _).
  unfold bind at 1, Notebook_search, bind at 1, get_notes.
  change (notebook_heap w0) with (notebook_heap w). rewrite Hnb.
  rewrite search_loop_filter by done.
  destruct (show_notes_total repr_str self w0 ns
              (Some (List.filter (matches_in w0 flt) ns))) as [out Hout]; [done..| |].
  - intros res [= <-]. unfold notes_alloc in *. rewrite Forall_forall in Hal.
    apply Forall_forall. intros l Hl. apply Hal.
    apply list_elem_of_In. apply list_elem_of_In, filter_In in Hl. tauto.
  - rewrite Hout. by exists out.
Qed.

Lemma add_note_run (self : Menu) (w : World) (ns : list loc) (m : string)
    (rest : list string) :
  notebook_heap w !! notebook self = Some ns → stdin w = m :: rest →
  Menu_add_note self w =
  Ok tt
    (mkWorld (last_id w + 1) (today w)
       (<[fresh (dom (note_heap w)) := mkNote m (TagsStr "") (today w) (last_id w + 1)]>
          (note_heap w))
       (<[notebook self := ns ++ [fresh (dom (note_heap w))]]> (notebook_heap w))
       rest
       ((stdout w +:+ "Enter a memo: ") +:+ "Your note has been added." +:+ nl)).
Proof.
  intros Hnb Hin. unfold Menu_add_note, bind at 1, input. rewrite Hin.
  unfold bind at 1. by rewrite (new_note_run _ _ ns).
Qed.

Lemma ids_of_app (w : World) (ns1 ns2 : list loc) :
  ids_of w (ns1 ++ ns2) = ids_of w ns1 ++ ids_of w ns2.
Proof. unfold ids_of. apply omap_app. Qed.

Lemma ids_of_single (w : World) (l : loc) (n : Note) :
  note_heap w !! l = Some n → ids_of w [l] = [id n].
Proof. intros Hn. unfold ids_of. csimpl. by rewrite Hn. Qed.

Lemma menu_inv_add (self : Menu) (w : World) (ns : list loc) (m : string)
    (i : list string) (o : string) :
  menu_inv self w → notebook_heap w !! notebook self = Some ns →
  menu_inv self
    (mkWorld (last_id w + 1) (today w)
       (<[fresh (dom (note_heap w)) := mkNote m (TagsStr "") (today w) (last_id w + 1)]>
          (note_heap w))
       (<[notebook self := ns ++ [fresh (dom (note_heap w))]]> (notebook_heap w))
       i o).
Proof.
  intros (ns0 & Hnb0 & Hal & Hids & Hpos & Htxt) Hnb.
  assert (ns0 = ns) as -> by congruence.
  pose proof (fresh_note_None w) as Hfresh.
  set (l := fresh (dom (note_heap w))) in *.
  set (n := mkNote m (TagsStr "") (today w) (last_id w + 1)).
  set (w' := mkWorld _ _ _ _ _ _).
  assert (∀ l', l' ∈ ns → l' ≠ l) as Hne.
  { intros l' Hl' ->. unfold notes_alloc in Hal. rewrite Forall_forall in Hal.
    destruct (Hal l Hl') as [n0 Hn0]. congruence. }
  assert (∀ l', l' ∈ ns → note_heap w' !! l' = note_heap w !! l') as Hold.
  { intros l' Hl'. unfold w'. simpl. apply lookup_insert_ne.
    intros Heq. by apply (Hne l' Hl'). }
  assert (note_heap w' !! l = Some n) as Hnew.
  { unfold w'. simpl. apply lookup_insert_eq. }
  unfold notes_alloc in Hal. rewrite Forall_forall in Hal, Htxt.
  exists (ns ++ [l]). split_and!.
  - unfold w'. simpl. apply lookup_insert_eq.
  - apply Forall_app. split.
    + apply Forall_forall. intros l' Hl'. rewrite Hold by done. by apply Hal.
    + constructor; [|constructor]. by exists n.
  - rewrite ids_of_app, (ids_of_single w' l n Hnew).
    rewrite (ids_of_ext w w' ns) by (intros l' Hl'; by rewrite Hold).
    rewrite Hids. change (last_id w') with (last_id w + 1).
    rewrite (seqZ_app 1 (last_id w) 1) by lia.
    f_equal. rewrite (seqZ_cons (1 + last_id w) 1) by lia.
    rewrite seqZ_nil by lia. unfold n. simpl. f_equal. lia.
  - unfold w'. simpl. lia.
  - apply Forall_app. split.
    + apply Forall_forall. intros l' Hl' n0. rewrite Hold by done. by apply Htxt.
    + constructor; [|constructor]. intros n0. rewrite Hnew. by intros [= <-].
Qed.

Lemma menu_inv_modify_at (self : Menu) (w w' : World) (note_id : IdArg)
    (upd : Note → Note) (b : bool) :
  menu_inv self w →
  (∀ n, id (upd n) = id n) → (∀ n, text_tags n → text_tags (upd n)) →
  modify_at (notebook self) note_id upd w = Ok b w' →
  menu_inv self w'.
Proof.
  intros Hinv Hid Htags Hrun. destruct b.
  - apply modify_at_true_inv in Hrun as (l & n & Hn & ->).
    destruct Hinv as (ns & Hnb & Hal & Hids & Hpos & Htxt).
    exists ns. simpl. split_and!; try done.
    + by apply (notes_alloc_insert w _ ns l n (upd n)).
    + rewrite <- Hids. apply ids_of_ext. intros l' _. simpl.
      destruct (decide (l = l')) as [<-|Hne].
      * rewrite lookup_insert_eq, Hn. simpl. by rewrite Hid.
      * by rewrite lookup_insert_ne.
    + eapply Forall_impl; [exact Htxt|]. simpl. intros l' Hl' n'.
      destruct (decide (l = l')) as [<-|Hne].
      * rewrite lookup_insert_eq. intros [= <-]. by apply Htags, Hl'.
      * rewrite lookup_insert_ne by done. apply Hl'.
  - by apply modify_at_false_inv in Hrun as ->.
Qed.

(** One of the two optional calls of [modify_note]. *)
Lemma optional_modify_safe (self : Menu) (w : World) (cond : bool) (note_id : IdArg)
    (upd : Note → Note) :
  menu_inv self w →
  (∀ n, id (upd n) = id n) → (∀ n, text_tags n → text_tags (upd n)) →
  ∃ w1, (if cond
         then _ ← modify_at (notebook self) note_id upd; ret tt
         else ret tt) w = Ok tt w1 ∧
        menu_inv self w1 ∧ stdin w1 = stdin w ∧ stdout w1 = stdout w.
Proof.
  intros Hinv Hid Htags. destruct cond; [|by exists w].
  destruct Hinv as (ns & Hnb & Hal & Hrest).
  destruct (modify_at_effect w (notebook self) ns note_id upd Hnb Hal Hid)
    as (b & w1 & Hrun & _ & Hin & Hout & _).
  exists w1. unfold bind. rewrite Hrun. split_and!; try done.
  apply (menu_inv_modify_at self w w1 note_id upd b); try done.
  by exists ns.
Qed.

Lemma modify_note_read (self : Menu) (w : World) (a b c : string) (rest : list string) :
  stdin w = a :: b :: c :: rest →
  Menu_modify_note self w =
  (_ ← (if str_truthy b
        then _ ← modify_at (notebook self) (IdStr a) (with_memo b); ret tt
        else ret tt);
   if str_truthy c
   then _ ← modify_at (notebook self) (IdStr a) (with_tags (TagsStr c)); ret tt
   else ret tt) (after_prompts w rest).
Proof.
  intros Hin. unfold Menu_modify_note. unfold bind at 1, input. rewrite Hin.
  reflexivity.
Qed.

Lemma modify_note_total (self : Menu) (w : World) (a b c : string) (rest : list string) :
  menu_inv self w → stdin w = a :: b :: c :: rest →
  ∃ w', Menu_modify_note self w = Ok tt w' ∧ menu_inv self w'.
Proof.
  intros Hinv Hin. rewrite (modify_note_read self w a b c rest Hin).
  assert (menu_inv self (after_prompts w rest)) as Hinv0.
  { apply (menu_inv_same_store self w); [by repeat split | done]. }
  destruct (optional_modify_safe self (after_prompts w rest) (str_truthy b)
              (IdStr a) (with_memo b) Hinv0) as (w1 & Hrun1 & Hinv1 & _); [done..|].
  destruct (optional_modify_safe self w1 (str_truthy c)
              (IdStr a) (with_tags (TagsStr c)) Hinv1) as (w2 & Hrun2 & Hinv2 & _);
    [done..|].
  exists w2. unfold bind at 1. rewrite Hrun1. by rewrite Hrun2.
Qed.

Lemma call_action_safe (repr_str : string → string) (self : Menu) (a : action)
    (w : World) :
  menu_inv self w →
  (∃ w', call_action repr_str self a w = Continue w' ∧ menu_inv self w') ∨
  (∃ w', call_action repr_str self a w = Exit 0 w' ∧ menu_inv self w') ∨
  call_action repr_str self a w = Abort EOFError.
Proof.
  intros Hinv. pose proof Hinv as (ns & Hnb & Hal & _).
  destruct a; simpl.
  - left. destruct (show_notes_total repr_str self w ns None Hnb Hal) as [out Hout];
      [done|].
    rewrite Hout. eexists. split; [done|].
    apply (menu_inv_same_store self w); [by repeat split | done].
  - destruct (stdin w) as [|flt rest] eqn:Hin.
    + right. right. unfold Menu_search_notes, bind, input. by rewrite Hin.
    + left. destruct (search_notes_total repr_str self w ns flt rest Hnb Hal Hin)
        as [out Hout].
      rewrite Hout. eexists. split; [done|].
      apply (menu_inv_same_store self w); [by repeat split | done].
  - destruct (stdin w) as [|m rest] eqn:Hin.
    + right. right. unfold Menu_add_note, bind, input. by rewrite Hin.
    + left. rewrite (add_note_run self w ns m rest Hnb Hin). eexists.
      split; [done|]. by apply menu_inv_add.
  - destruct (stdin w) as [|a [|b [|c rest]]] eqn:Hin.
    + right. right. unfold Menu_modify_note, bind at 1, input. by rewrite Hin.
    + right. right. unfold Menu_modify_note, bind at 1, input. rewrite Hin.
      unfold bind at 1. by simpl.
    + right. right. unfold Menu_modify_note, bind at 1, input. rewrite Hin.
      unfold bind at 1. simpl stdin. unfold bind at 1. by simpl.
    + left. destruct (modify_note_total self w a b c rest Hinv Hin) as (w' & Hrun & Hinv').
      rewrite Hrun. by exists w'.
  - right. left. unfold Menu_quit. simpl. eexists. split; [done|].
    apply (menu_inv_same_store self w); [by repeat split | done].
Qed.

Lemma run_body_safe (repr_str : string → string) (self : Menu) (w : World) :
  menu_inv self w →
  (∃ w', run_body repr_str self w = Continue w' ∧ menu_inv self w') ∨
  (∃ w', run_body repr_str self w = Exit 0 w' ∧ menu_inv self w') ∨
  run_body repr_str self w = Abort EOFError.
Proof.
  intros Hinv. destruct (stdin w) as [|c rest] eqn:Hin.
  - right. right. unfold run_body, bind, Menu_display_menu, print, input. simpl.
    by rewrite Hin.
  - rewrite (run_body_read _ _ _ c rest) by done.
    assert (menu_inv self (after_choice w rest)) as Hinv0.
    { apply (menu_inv_same_store self w); [by repeat split | done]. }
    destruct (choices c) as [a|]; [by apply call_action_safe|].
    left. simpl. eexists. split; [done|].
    apply (menu_inv_same_store self w); [by repeat split | done].
Qed.

Lemma run_safe (repr_str : string → string) (self : Menu) (fuel : nat) (w : World) :
  menu_inv self w → (length (stdin w) < fuel)%nat →
  (∃ w', Menu_run repr_str fuel self w = Exited 0 w' ∧ menu_inv self w') ∨
  Menu_run repr_str fuel self w = Failed EOFError.
Proof.
  revert w. induction fuel as [|k IH]; intros w Hinv Hfuel; [lia|]. simpl.
  destruct (run_body_safe repr_str self w Hinv)
    as [(w1 & Hbody & Hinv1)|[(w1 & Hbody & Hinv1)|Hbody]]; rewrite Hbody.
  - apply (proj1 (run_body_progress repr_str self w)) in Hbody as [Hlt _].
    apply IH; [done | lia].
  - left. by exists w1.
  - by right.
Qed.

Lemma Menu_init_inv (d : date) (lines : list string) :
  ∃ self w0, Menu_init (init_world d lines) = Ok self w0 ∧
             menu_inv self w0 ∧ stdin w0 = lines ∧ stdout w0 = "".
Proof.
  eexists _, _. split; [reflexivity|]. split; [|done].
  exists []. simpl. split_and!.
  - apply lookup_insert_eq.
  - constructor.
  - reflexivity.
  - lia.
  - constructor.
Qed.

(** X9: [Menu().run()] in a new process, fed any finite input, ends in one
    of two ways only: by the choice of [quit], with status 0, or by
    [EOFError] when the input runs out; no other exception leaves the loop.
    At the exit the notes of the notebook carry the ids 1, 2, ... up to the
    counter in the order of the list, all different, and their tags are
    text. *)
Theorem menu_session_safe (repr_str : string → string) (fuel : nat) (d : date)
    (lines : list string) :
  (length lines < fuel)%nat →
  ∃ self w0, Menu_init (init_world d lines) = Ok self w0 ∧
    ((∃ w' ns, main repr_str fuel d lines = Exited 0 w' ∧
               notebook_heap w' !! notebook self = Some ns ∧
               notes_alloc w' ns ∧
               ids_of w' ns = seqZ 1 (last_id w') ∧
               NoDup (ids_of w' ns) ∧
               Forall (λ l, ∀ n, note_heap w' !! l = Some n → text_tags n) ns) ∨
     main repr_str fuel d lines = Failed EOFError).
Proof.
  intros Hfuel. destruct (Menu_init_inv d lines) as (self & w0 & Hinit & Hinv & Hin & _).
  exists self, w0. split; [done|]. unfold main. rewrite Hinit.
  destruct (run_safe repr_str self fuel w0 Hinv) as [(w' & Hrun & Hinv')|Hrun].
  - by rewrite Hin.
  - left. destruct Hinv' as (ns & Hnb & Hal & Hids & _ & Htxt).
    exists w', ns. split_and!; try done. rewrite Hids. apply NoDup_seqZ.
  - by right.
Qed.

Lemma menu_session_safe_witness :
  (length ["3"; "first"; "3"; ""; "4"; "2"; "second"; "to do"; "1"; "x"; "5"] < 12)%nat ∧
  ∃ w', main (λ s, s) 12 demo_date
          ["3"; "first"; "3"; ""; "4"; "2"; "second"; "to do"; "1"; "x"; "5"]
        = Exited 0 w' ∧ last_id w' = 2.
Proof.
  split; [simpl; lia|].
  destruct (menu_session_safe (λ s, s) 12 demo_date
              ["3"; "first"; "3"; ""; "4"; "2"; "second"; "to do"; "1"; "x"; "5"])
    as (self & w0 & _ & [(w' & ns & Hrun & _)|Hrun]).
  - simpl. lia.
  - exists w'. split; [exact Hrun|].
    assert (main (λ s, s) 12 demo_date
              ["3"; "first"; "3"; ""; "4"; "2"; "second"; "to do"; "1"; "x"; "5"]
            = Exited 0 w') as H by exact Hrun.
    vm_compute in H. injection H as <-. reflexivity.
  - vm_compute in Hrun. discriminate Hrun.
Defined.

(** ** A new notebook *)

(** X10: [Notebook()] makes a notebook that did not exist, with no note in
    it: a search in it finds nothing, no id is found in it, both
    modifications answer [False] and leave the state as it is, and every
    other notebook is as it was. *)
Theorem new_notebook_is_empty (w : World) :
  ∃ nb w', Notebook_init w = Ok nb w' ∧
    notebook_heap w !! nb = None ∧
    notebook_heap w' !! nb = Some [] ∧
    (∀ nb', nb' ≠ nb → notebook_heap w' !! nb' = notebook_heap w !! nb') ∧
    note_heap w' = note_heap w ∧ last_id w' = last_id w ∧
    (∀ flt, Notebook_search nb flt w' = Ok [] w') ∧
    (∀ note_id, Notebook__find_note nb note_id w' = Ok None w') ∧
    (∀ note_id v, Notebook_modify_memo nb note_id v w' = Ok false w') ∧
    (∀ note_id v, Notebook_modify_tags nb note_id v w' = Ok false w').
Proof.
  eexists _, _. split; [reflexivity|].
  set (nb := fresh (dom (notebook_heap w))).
  set (w' := set_notebook_heap _ w).
  assert (notebook_heap w' !! nb = Some []) as Hnb.
  { unfold w'. simpl. apply lookup_insert_eq. }
  assert (notes_alloc w' []) as Hal by constructor.
  split_and!.
  - apply not_elem_of_dom, is_fresh.
  - done.
  - intros nb' Hne. unfold w'. simpl. by rewrite lookup_insert_ne.
  - done.
  - done.
  - intros flt. unfold Notebook_search, bind, get_notes. by rewrite Hnb.
  - intros note_id. by rewrite (find_note_run w' nb [] note_id Hnb Hal).
  - intros note_id v. rewrite modify_memo_at.
    by apply (modify_at_missing w' nb [] note_id _ Hnb Hal).
  - intros note_id v. rewrite modify_tags_at.
    by apply (modify_at_missing w' nb [] note_id _ Hnb Hal).
Qed.

(** ** new_note, then a lookup *)

Lemma notes_alloc_elem (w : World) (ns : list loc) (l : loc) :
  notes_alloc w ns → l ∈ ns → is_Some (note_heap w !! l).
Proof. unfold notes_alloc. rewrite Forall_forall. auto. Qed.

Lemma first_match_app (w : World) (ns1 ns2 : list loc) (note_id : IdArg) :
  first_match w (ns1 ++ ns2) note_id =
  match first_match w ns1 note_id with
  | Some l => Some l
  | None => first_match w ns2 note_id
  end.
Proof.
  unfold first_match. induction ns1 as [|a ns1 IH]; simpl; [done|].
  by destruct (id_matches w note_id a).
Qed.

Lemma filter_app_list {A} (f : A → bool) (l1 l2 : list A) :
  List.filter f (l1 ++ l2) = List.filter f l1 ++ List.filter f l2.
Proof.
  induction l1 as [|a l1 IH]; simpl; [done|]. destruct (f a); simpl; by rewrite IH.
Qed.

Lemma filter_ext_elem {A} (f g : A → bool) (l : list A) :
  (∀ x, x ∈ l → f x = g x) → List.filter f l = List.filter g l.
Proof.
  induction l as [|a l IH]; intros Hext; simpl; [done|].
  rewrite (Hext a) by (apply elem_of_cons; auto).
  rewrite IH; [done|]. intros x Hx. apply Hext, elem_of_cons. auto.
Qed.

(** X11: a note just made by [new_note] is the one that [_find_note] finds
    under its id, given as an integer or as text, provided no note already
    had an id beyond the counter; and [search] then returns what it returned
    before, followed by the new note exactly when the new note matches. *)
Theorem new_note_then_lookup (w : World) (self : loc) (ns : list loc)
    (memo0 : string) (tags0 : Tags) :
  notebook_heap w !! self = Some ns →
  notes_alloc w ns →
  ids_bounded w →
  ∃ l w', Notebook_new_note self memo0 tags0 w = Ok tt w' ∧
    note_heap w' !! l = Some (mkNote memo0 tags0 (today w) (last_id w + 1)) ∧
    Notebook__find_note self (IdInt (last_id w + 1)) w' = Ok (Some l) w' ∧
    Notebook__find_note self (IdStr (str_int (last_id w + 1))) w' = Ok (Some l) w' ∧
    (∀ flt, Notebook_search self flt w' =
            Ok (List.filter (matches_in w flt) ns ++
                (if note_matches (mkNote memo0 tags0 (today w) (last_id w + 1)) flt
                 then [l] else []))
               w') ∧
    Notebook_search self memo0 w' = Ok (List.filter (matches_in w memo0) ns ++ [l]) w'.
Proof.
  intros Hnb Hal Hbnd.
  set (l := fresh (dom (note_heap w))).
  set (n := mkNote memo0 tags0 (today w) (last_id w + 1)).
  exists l. eexists. split; [by apply (new_note_run w self ns)|].
  fold l n. set (w' := set_notebook_heap _ _).
  pose proof (fresh_note_None w) as Hfresh. fold l in Hfresh.
  assert (note_heap w' !! l = Some n) as Hnew.
  { unfold w'. simpl. apply lookup_insert_eq. }
  assert (∀ l', l' ∈ ns → note_heap w' !! l' = note_heap w !! l') as Hold.
  { intros l' Hl'. unfold w'. simpl. apply lookup_insert_ne. intros <-.
    destruct (notes_alloc_elem w ns l Hal Hl') as [n0 Hn0]. congruence. }
  assert (notebook_heap w' !! self = Some (ns ++ [l])) as Hnb'.
  { unfold w'. simpl. apply lookup_insert_eq. }
  assert (notes_alloc w' (ns ++ [l])) as Hal'.
  { apply Forall_app. split.
    - apply Forall_forall. intros l' Hl'. rewrite Hold by done.
      by apply (notes_alloc_elem w ns).
    - constructor; [|constructor]. by exists n. }
  assert (∀ note_id, py_str note_id = str_int (last_id w + 1) →
                     first_match w' (ns ++ [l]) note_id = Some l) as Hfind.
  { intros note_id Hstr. rewrite first_match_app.
    assert (first_match w' ns note_id = None) as ->.
    { apply first_match_None, Forall_forall. intros l' Hl'.
      unfold id_matches. rewrite Hold by done.
      destruct (note_heap w !! l') as [n0|] eqn:Hn0; [|done].
      apply String.eqb_neq. rewrite Hstr. intros Heq%(inj pretty).
      specialize (Hbnd l' n0 Hn0). lia. }
    unfold first_match. simpl. unfold id_matches. rewrite Hnew, Hstr. simpl.
    by rewrite String.eqb_refl. }
  assert (∀ flt, Notebook_search self flt w' =
            Ok (List.filter (matches_in w flt) ns ++
                (if note_matches n flt then [l] else [])) w') as Hsearch.
  { intros flt. unfold Notebook_search, bind, get_notes. rewrite Hnb'.
    rewrite search_loop_filter by done. f_equal. rewrite filter_app_list.
    f_equal.
    - apply filter_ext_elem. intros l' Hl'. unfold matches_in. by rewrite Hold.
    - simpl. unfold matches_in. by rewrite Hnew. }
  split_and!.
  - done.
  - rewrite (find_note_run w' self (ns ++ [l]) _ Hnb' Hal'). by rewrite Hfind.
  - rewrite (find_note_run w' self (ns ++ [l]) _ Hnb' Hal'). by rewrite Hfind.
  - done.
  - rewrite Hsearch.
    assert (note_matches n memo0 = true) as ->; [|done].
    apply note_matches_spec. left. exists "", "". by rewrite app_empty_r.
Qed.

Lemma new_note_then_lookup_witness :
  notebook_heap demo_world !! demo_nb = Some [demo_n1; demo_n2] ∧
  notes_alloc demo_world [demo_n1; demo_n2] ∧
  ids_bounded demo_world ∧
  ∃ l w', Notebook_new_note demo_nb "hello there" (TagsStr "") demo_world = Ok tt w' ∧
          Notebook__find_note demo_nb (IdStr (str_int (last_id demo_world + 1))) w'
            = Ok (Some l) w'.
Proof.
  assert (notes_alloc demo_world [demo_n1; demo_n2]) as Hal.
  { repeat constructor; eexists; reflexivity. }
  assert (ids_bounded demo_world) as Hb.
  { intros l n. unfold demo_world. simpl. rewrite lookup_insert_Some.
    intros [[_ <-]|[_ H]]; [simpl; lia|].
    apply lookup_singleton_Some in H as [_ <-]. simpl. lia. }
  split; [reflexivity|]. split; [exact Hal|]. split; [exact Hb|].
  destruct (new_note_then_lookup demo_world demo_nb [demo_n1; demo_n2] "hello there"
              (TagsStr "") eq_refl Hal Hb) as (l & w' & Hrun & _ & _ & Hfind & _).
  exists l, w'. split; [exact Hrun | exact Hfind].
Defined.

(** ** Modifications, one after the other *)

Lemma modify_at_compose (w : World) (self : loc) (ns : list loc) (note_id : IdArg)
    (upd1 upd2 : Note → Note) :
  notebook_heap w !! self = Some ns → notes_alloc w ns →
  (∀ n, id (upd1 n) = id n) →
  (_ ← modify_at self note_id upd1; modify_at self note_id upd2) w =
  modify_at self note_id (λ n, upd2 (upd1 n)) w.
Proof.
  intros Hnb Hal Hid. unfold bind.
  destruct (first_match w ns note_id) as [l|] eqn:Hf.
  - destruct (first_match_alloc _ _ _ _ Hf) as (_ & n & Hn & _).
    rewrite (modify_at_found w self ns note_id upd1 l n) by done.
    rewrite (modify_at_found w self ns note_id (λ n, upd2 (upd1 n)) l n) by done.
    set (w1 := set_note_heap (<[l:=upd1 n]> (note_heap w)) w).
    rewrite (modify_at_found w1 self ns note_id upd2 l (upd1 n)).
    + unfold w1, set_note_heap. simpl. by rewrite insert_insert_eq.
    + done.
    + by apply (notes_alloc_insert w w1 ns l n (upd1 n)).
    + rewrite <- Hf. by apply (first_match_insert w w1 ns note_id l n (upd1 n)).
    + unfold w1. simpl. apply lookup_insert_eq.
  - rewrite (modify_at_missing w self ns note_id upd1) by done.
    rewrite (modify_at_missing w self ns note_id (λ n, upd2 (upd1 n))) by done.
    by apply (modify_at_missing w self ns note_id upd2).
Qed.

Lemma modify_at_ext (w : World) (self : loc) (ns : list loc) (note_id : IdArg)
    (upd upd' : Note → Note) :
  notebook_heap w !! self = Some ns → notes_alloc w ns →
  (∀ n, upd n = upd' n) →
  modify_at self note_id upd w = modify_at self note_id upd' w.
Proof.
  intros Hnb Hal Hext. destruct (first_match w ns note_id) as [l|] eqn:Hf.
  - destruct (first_match_alloc _ _ _ _ Hf) as (_ & n & Hn & _).
    rewrite (modify_at_found w self ns note_id upd l n) by done.
    rewrite (modify_at_found w self ns note_id upd' l n) by done.
    by rewrite Hext.
  - rewrite (modify_at_missing w self ns note_id upd) by done.
    by rewrite (modify_at_missing w self ns note_id upd').
Qed.

(** X12: of two [modify_memo] on the same id only the second counts, and so
    for [modify_tags]; [modify_memo] and [modify_tags] on the same id give the
    same state and the same answer in either order. *)
Theorem modifications_compose (w : World) (self : loc) (ns : list loc)
    (note_id : IdArg) :
  notebook_heap w !! self = Some ns →
  notes_alloc w ns →
  (∀ v1 v2, (_ ← Notebook_modify_memo self note_id v1;
             Notebook_modify_memo self note_id v2) w =
            Notebook_modify_memo self note_id v2 w) ∧
  (∀ t1 t2, (_ ← Notebook_modify_tags self note_id t1;
             Notebook_modify_tags self note_id t2) w =
            Notebook_modify_tags self note_id t2 w) ∧
  (∀ v t, (_ ← Notebook_modify_memo self note_id v;
           Notebook_modify_tags self note_id t) w =
          (_ ← Notebook_modify_tags self note_id t;
           Notebook_modify_memo self note_id v) w).
Proof.
  intros Hnb Hal. split_and!.
  - intros v1 v2. rewrite !modify_memo_at.
    rewrite (modify_at_compose w self ns) by done.
    by apply (modify_at_ext w self ns).
  - intros t1 t2. rewrite !modify_tags_at.
    rewrite (modify_at_compose w self ns) by done.
    by apply (modify_at_ext w self ns).
  - intros v t. rewrite !modify_memo_at, !modify_tags_at.
    rewrite !(modify_at_compose w self ns) by done.
    by apply (modify_at_ext w self ns).
Qed.

Lemma modifications_compose_witness :
  notebook_heap demo_world !! demo_nb = Some [demo_n1; demo_n2] ∧
  notes_alloc demo_world [demo_n1; demo_n2] ∧
  (_ ← Notebook_modify_memo demo_nb (IdInt 2) "one";
   Notebook_modify_memo demo_nb (IdInt 2) "two") demo_world =
  Notebook_modify_memo demo_nb (IdInt 2) "two" demo_world.
Proof.
  assert (notes_alloc demo_world [demo_n1; demo_n2]) as Hal.
  { repeat constructor; eexists; reflexivity. }
  split; [reflexivity|]. split; [exact Hal|].
  apply (proj1 (modifications_compose demo_world demo_nb [demo_n1; demo_n2] (IdInt 2)
                  eq_refl Hal)).
Defined.

(** X13: once [modify_memo] has answered [True], the id still finds the same
    note, and a search for the new memo returns a list with that note in it;
    likewise a search for the new tags, given as text, after [modify_tags]. *)
Theorem modify_then_lookup (w : World) (self : loc) (ns : list loc)
    (note_id : IdArg) (l : loc) :
  notebook_heap w !! self = Some ns →
  notes_alloc w ns →
  first_match w ns note_id = Some l →
  (∀ v, ∃ w' res,
     Notebook_modify_memo self note_id v w = Ok true w' ∧
     Notebook__find_note self note_id w' = Ok (Some l) w' ∧
     Notebook_search self v w' = Ok res w' ∧ l ∈ res) ∧
  (∀ t, ∃ w' res,
     Notebook_modify_tags self note_id (TagsStr t) w = Ok true w' ∧
     Notebook__find_note self note_id w' = Ok (Some l) w' ∧
     Notebook_search self t w' = Ok res w' ∧ l ∈ res).
Proof.
  intros Hnb Hal Hf.
  destruct (first_match_alloc _ _ _ _ Hf) as (Hin & n & Hn & _).
  assert (∀ upd flt, id (upd n) = id n → note_matches (upd n) flt = true →
            ∃ w' res, modify_at self note_id upd w = Ok true w' ∧
              Notebook__find_note self note_id w' = Ok (Some l) w' ∧
              Notebook_search self flt w' = Ok res w' ∧ l ∈ res) as Hgen.
  { intros upd flt Hid Hm.
    set (w' := set_note_heap (<[l:=upd n]> (note_heap w)) w).
    assert (notes_alloc w' ns) as Hal'.
    { by apply (notes_alloc_insert w w' ns l n (upd n)). }
    exists w', (List.filter (matches_in w' flt) ns). split_and!.
    - by apply (modify_at_found w self ns).
    - rewrite (find_note_run w' self ns note_id) by done.
      rewrite <- Hf. f_equal.
      by apply (first_match_insert w w' ns note_id l n (upd n)).
    - unfold Notebook_search, bind, get_notes.
      change (notebook_heap w') with (notebook_heap w). rewrite Hnb.
      by apply search_loop_filter.
    - apply list_elem_of_In, filter_In. split; [by apply list_elem_of_In|].
      unfold matches_in, w'. simpl. by rewrite lookup_insert_eq. }
  split.
  - intros v. apply (Hgen (with_memo v) v); [done|].
    apply note_matches_spec. left. exists "", "". by rewrite app_empty_r.
  - intros t. apply (Hgen (with_tags (TagsStr t)) t); [done|].
    apply note_matches_spec. right. exists "", "". by rewrite app_empty_r.
Qed.

Lemma modify_then_lookup_witness :
  notebook_heap demo_world !! demo_nb = Some [demo_n1; demo_n2] ∧
  notes_alloc demo_world [demo_n1; demo_n2] ∧
  first_match demo_world [demo_n1; demo_n2] (IdStr "2") = Some demo_n2 ∧
  ∃ w' res,
    Notebook_modify_memo demo_nb (IdStr "2") "changed" demo_world = Ok true w' ∧
    Notebook__find_note demo_nb (IdStr "2") w' = Ok (Some demo_n2) w' ∧
    Notebook_search demo_nb "changed" w' = Ok res w' ∧ demo_n2 ∈ res.
Proof.
  assert (notes_alloc demo_world [demo_n1; demo_n2]) as Hal.
  { repeat constructor; eexists; reflexivity. }
  split; [reflexivity|]. split; [exact Hal|]. split; [reflexivity|].
  apply (proj1 (modify_then_lookup demo_world demo_nb [demo_n1; demo_n2] (IdStr "2")
                  demo_n2 eq_refl Hal eq_refl)).
Defined.

(** ** Filters *)

Lemma is_substring_trans (g f s : string) :
  is_substring g f → is_substring f s → is_substring g s.
Proof.
  intros (p1 & q1 & ->) (p2 & q2 & ->).
  exists (p2 +:+ p1), (q1 +:+ q2). by rewrite !app_assoc_str.
Qed.

Lemma length_app_str (a b : string) :
  String.length (a +:+ b) = (String.length a + String.length b)%nat.
Proof. induction a as [|c a IH]; [done|]. rewrite app_String. simpl. by rewrite IH. Qed.

Lemma is_substring_length (x s : string) :
  is_substring x s → (String.length x ≤ String.length s)%nat.
Proof. intros (pre & post & ->). rewrite !length_app_str. lia. Qed.

Lemma filter_sublist_mono {A} (f g : A → bool) (l : list A) :
  (∀ x, x ∈ l → f x = true → g x = true) →
  sublist (List.filter f l) (List.filter g l).
Proof.
  induction l as [|a l IH]; intros Himp; simpl; [constructor|].
  assert (sublist (List.filter f l) (List.filter g l)) as Hsub.
  { apply IH. intros x Hx. apply Himp, elem_of_cons. auto. }
  destruct (f a) eqn:Hf.
  - rewrite (Himp a) by (by try apply elem_of_cons; auto). by constructor.
  - destruct (g a); [by constructor | done].
Qed.

(** X14: for notes whose tags are text, a note that matches a filter matches
    every contiguous part of that filter, so the search for the part returns
    at least the notes of the search for the whole, in the same order.  With
    a list for tags this fails: the label ["greet"] is matched by ["greet"]
    and not by ["gre"]. *)
Theorem shorter_filter_finds_more (w : World) (self : loc) (ns : list loc)
    (f g : string) :
  notebook_heap w !! self = Some ns →
  notes_alloc w ns →
  Forall (λ l, ∀ n, note_heap w !! l = Some n → text_tags n) ns →
  is_substring g f →
  (∀ n, text_tags n → note_matches n f = true → note_matches n g = true) ∧
  (∃ rf rg, Notebook_search self f w = Ok rf w ∧
            Notebook_search self g w = Ok rg w ∧ sublist rf rg) ∧
  (∀ d k, note_matches (mkNote "hello" (TagsList ["greet"]) d k) "greet" = true ∧
          note_matches (mkNote "hello" (TagsList ["greet"]) d k) "gre" = false).
Proof.
  intros Hnb Hal Htxt Hgf.
  assert (∀ n, text_tags n → note_matches n f = true → note_matches n g = true) as Hmono.
  { intros n Ht. rewrite !note_matches_spec. unfold text_tags in Ht.
    destruct (tags n) as [t|ts]; [|done]. simpl.
    intros [H|H]; [left|right]; by apply (is_substring_trans g f). }
  split_and!.
  - done.
  - exists (List.filter (matches_in w f) ns), (List.filter (matches_in w g) ns).
    split_and!.
    + unfold Notebook_search, bind, get_notes. rewrite Hnb.
      by apply search_loop_filter.
    + unfold Notebook_search, bind, get_notes. rewrite Hnb.
      by apply search_loop_filter.
    + apply filter_sublist_mono. intros l Hl. unfold matches_in.
      rewrite Forall_forall in Htxt.
      destruct (note_heap w !! l) as [n|] eqn:Hn; [|done].
      apply Hmono. by apply (Htxt l).
  - intros d k. by vm_compute.
Qed.

Lemma shorter_filter_finds_more_witness :
  notebook_heap demo_text_world !! demo_nb = Some [demo_n1] ∧
  notes_alloc demo_text_world [demo_n1] ∧
  Forall (λ l, ∀ n, note_heap demo_text_world !! l = Some n → text_tags n) [demo_n1] ∧
  is_substring "lo w" "hello world" ∧
  ∃ rf rg, Notebook_search demo_nb "hello world" demo_text_world = Ok rf demo_text_world ∧
           Notebook_search demo_nb "lo w" demo_text_world = Ok rg demo_text_world ∧
           sublist rf rg.
Proof.
  assert (is_substring "lo w" "hello world") as Hsub.
  { exists "hel", "orld". reflexivity. }
  assert (notes_alloc demo_text_world [demo_n1]) as Hal.
  { repeat constructor; eexists; reflexivity. }
  assert (Forall (λ l, ∀ n, note_heap demo_text_world !! l = Some n → text_tags n)
            [demo_n1]) as Htxt.
  { repeat constructor. intros n [= <-]. exact I. }
  split; [reflexivity|]. split; [exact Hal|]. split; [exact Htxt|].
  split; [exact Hsub|].
  apply (proj1 (proj2 (shorter_filter_finds_more demo_text_world demo_nb [demo_n1]
                         "hello world" "lo w" eq_refl Hal Htxt Hsub))).
Defined.

(** X15: a filter longer than the memo and longer than the text of the tags
    matches nothing; a note with empty memo and empty tags, such as
    [add_note] makes from an empty line, matches the empty filter only. *)
Theorem long_filter_no_match (memo0 tags0 flt : string) (d : date) (k : Z) :
  ((String.length memo0 < String.length flt)%nat →
   (String.length tags0 < String.length flt)%nat →
   note_matches (mkNote memo0 (TagsStr tags0) d k) flt = false) ∧
  (note_matches (mkNote "" (TagsStr "") d k) flt = true ↔ flt = "").
Proof.
  assert ((String.length memo0 < String.length flt)%nat →
          (String.length tags0 < String.length flt)%nat →
          note_matches (mkNote memo0 (TagsStr tags0) d k) flt = false) as Hlong.
  { intros Hm Ht. apply not_true_is_false. rewrite note_matches_spec. simpl.
    intros [H|H]; apply is_substring_length in H; lia. }
  split; [done|]. split.
  - intros Hmatch. destruct flt as [|c flt]; [done|].
    apply note_matches_spec in Hmatch. simpl in Hmatch.
    destruct Hmatch as [H|H]; apply is_substring_length in H; simpl in H; lia.
  - intros ->. apply note_matches_empty.
Qed.

Lemma long_filter_no_match_witness :
  (String.length "hi" < String.length "high")%nat ∧
  (String.length "tag" < String.length "high")%nat ∧
  note_matches (mkNote "hi" (TagsStr "tag") demo_date 1) "high" = false.
Proof.
  split; [simpl; lia|]. split; [simpl; lia|].
  apply (proj1 (long_filter_no_match "hi" "tag" "high" demo_date 1)); simpl; lia.
Defined.

(** ** Ids that are unique *)

(** X16: where no two notes share an id, the id of a note of the notebook,
    given as an integer or as its text, finds that very note, and
    [modify_memo] under that id assigns the memo of that note and of no
    other. *)
Theorem own_id_finds_note (w : World) (self : loc) (ns : list loc) (l : loc) (n : Note) :
  notebook_heap w !! self = Some ns →
  notes_alloc w ns →
  ids_unique w →
  l ∈ ns →
  note_heap w !! l = Some n →
  Notebook__find_note self (IdInt (id n)) w = Ok (Some l) w ∧
  Notebook__find_note self (IdStr (str_int (id n))) w = Ok (Some l) w ∧
  (∀ v, Notebook_modify_memo self (IdInt (id n)) v w =
        Ok true (set_note_heap (<[l := with_memo v n]> (note_heap w)) w)).
Proof.
  intros Hnb Hal Huniq Hin Hn.
  assert (∀ note_id, py_str note_id = str_int (id n) →
                     first_match w ns note_id = Some l) as Hfind.
  { intros note_id Hstr.
    destruct (first_match w ns note_id) as [l'|] eqn:Hf.
    - destruct (first_match_alloc _ _ _ _ Hf) as (_ & n' & Hn' & Hid).
      rewrite Hstr in Hid. apply (inj pretty) in Hid.
      f_equal. by apply (Huniq l' l n' n).
    - apply first_match_None in Hf. rewrite Forall_forall in Hf.
      specialize (Hf l Hin). unfold id_matches in Hf. rewrite Hn, Hstr in Hf.
      by rewrite String.eqb_refl in Hf. }
  split_and!.
  - rewrite (find_note_run w self ns) by done. by rewrite Hfind.
  - rewrite (find_note_run w self ns) by done. by rewrite Hfind.
  - intros v. rewrite modify_memo_at.
    apply (modify_at_found w self ns); try done. by apply Hfind.
Qed.

Lemma own_id_finds_note_witness :
  notebook_heap demo_world !! demo_nb = Some [demo_n1; demo_n2] ∧
  notes_alloc demo_world [demo_n1; demo_n2] ∧
  ids_unique demo_world ∧
  Notebook__find_note demo_nb (IdInt 2) demo_world = Ok (Some demo_n2) demo_world.
Proof.
  assert (notes_alloc demo_world [demo_n1; demo_n2]) as Hal.
  { repeat constructor; eexists; reflexivity. }
  assert (ids_unique demo_world) as Hu.
  { intros l1 l2 n1 n2. unfold demo_world. simpl. rewrite !lookup_insert_Some.
    intros [[<- <-]|[Hne1 H1]] [[<- <-]|[Hne2 H2]]; simpl; try done.
    - apply lookup_singleton_Some in H2 as [<- <-]. simpl. lia.
    - apply lookup_singleton_Some in H1 as [<- <-]. simpl. lia.
    - apply lookup_singleton_Some in H1 as [<- _].
      by apply lookup_singleton_Some in H2 as [<- _]. }
  split; [reflexivity|]. split; [exact Hal|]. split; [exact Hu|].
  apply (proj1 (own_id_finds_note demo_world demo_nb [demo_n1; demo_n2] demo_n2
                  (mkNote "hello again" (TagsList ["greet"; "h"]) demo_date 2)
                  eq_refl Hal Hu ltac:(by apply list_elem_of_further, list_elem_of_here)
                  eq_refl)).
Defined.

(** ** What every state of a process satisfies *)

Lemma ids_unique_insert_same (w w' : World) (l : loc) (n n' : Note) :
  note_heap w !! l = Some n → id n' = id n →
  note_heap w' = <[l := n']> (note_heap w) →
  ids_unique w → ids_unique w'.
Proof.
  intros Hn Hid Hh Hu l1 l2 n1 n2. rewrite Hh, !lookup_insert_Some.
  intros [[<- <-]|[Hne1 H1]] [[<- <-]|[Hne2 H2]] Heq; try done.
  - apply (Hu l l2 n n2); [done..|congruence].
  - apply (Hu l1 l n1 n); [done..|congruence].
  - by apply (Hu l1 l2 n1 n2).
Qed.

Lemma ids_unique_insert_new (w w' : World) (l : loc) (n' : Note) :
  id n' = last_id w + 1 →
  note_heap w' = <[l := n']> (note_heap w) →
  ids_bounded w → ids_unique w → ids_unique w'.
Proof.
  intros Hid Hh Hb Hu l1 l2 n1 n2. rewrite Hh, !lookup_insert_Some.
  intros [[<- <-]|[Hne1 H1]] [[<- <-]|[Hne2 H2]] Heq; try done.
  - specialize (Hb l2 n2 H2). lia.
  - specialize (Hb l1 n1 H1). lia.
  - by apply (Hu l1 l2 n1 n2).
Qed.

Lemma owned_once_same (w w' : World) :
  notebook_heap w' = notebook_heap w → owned_once w → owned_once w'.
Proof. intros Hh Ho. unfold owned_once. by rewrite Hh. Qed.

Lemma owned_once_new_notebook (w w' : World) (nb : loc) :
  notebook_heap w' = <[nb := []]> (notebook_heap w) →
  owned_once w → owned_once w'.
Proof.
  intros Hh Ho nb1 nb2 ns1 ns2 i j l. rewrite Hh, !lookup_insert_Some.
  intros [[<- <-]|[Hne1 H1]] [[<- <-]|[Hne2 H2]]; try done.
  by apply (Ho nb1 nb2).
Qed.

Lemma owned_once_append (w w' : World) (nb : loc) (ns : list loc) (l : loc) :
  notebook_heap w !! nb = Some ns →
  (∀ nb' ns', notebook_heap w !! nb' = Some ns' → l ∉ ns') →
  notebook_heap w' = <[nb := ns ++ [l]]> (notebook_heap w) →
  owned_once w → owned_once w'.
Proof.
  intros Hnb Hnew Hh Ho nb1 nb2 ns1 ns2 i j l0. rewrite Hh, !lookup_insert_Some.
  assert (∀ k x, (ns ++ [l]) !! k = Some x →
                 ns !! k = Some x ∨ (k = length ns ∧ x = l)) as Hsnoc.
  { intros k x. rewrite lookup_app_Some. intros [H|[Hge H]]; [by left|right].
    apply list_lookup_singleton_Some in H as [Hk <-]. split; [lia|done]. }
  assert (∀ nb' ns' k, notebook_heap w !! nb' = Some ns' → ns' !! k = Some l → False)
    as Hnot.
  { intros nb' ns' k Hnb' Hk. apply (Hnew nb' ns' Hnb').
    by apply list_elem_of_lookup_2 in Hk. }
  intros [[<- <-]|[Hne1 H1]] [[<- <-]|[Hne2 H2]] Hi Hj.
  - split; [done|].
    apply Hsnoc in Hi as [Hi|[-> ->]]; apply Hsnoc in Hj as [Hj|[-> Hl]]; try done.
    + by apply (Ho nb nb ns ns i j l0).
    + subst. by destruct (Hnot nb ns i Hnb Hi).
    + by destruct (Hnot nb ns j Hnb Hj).
  - apply Hsnoc in Hi as [Hi|[-> ->]].
    + by apply (Ho nb nb2 ns ns2 i j l0).
    + by destruct (Hnot nb2 ns2 j H2 Hj).
  - apply Hsnoc in Hj as [Hj|[-> ->]].
    + by apply (Ho nb1 nb ns1 ns i j l0).
    + by destruct (Hnot nb1 ns1 i H1 Hi).
  - by apply (Ho nb1 nb2 ns1 ns2 i j l0).
Qed.

Lemma fresh_note_unlisted (w : World) (nb : loc) (ns : list loc) :
  wf w → notebook_heap w !! nb = Some ns → fresh (dom (note_heap w)) ∉ ns.
Proof.
  intros Hwf Hnb Hin. destruct (notes_alloc_elem w ns _ (Hwf nb ns Hnb) Hin) as [n Hn].
  pose proof (fresh_note_None w). congruence.
Qed.

Lemma run_op_unique (o : Op) (w w' : World) (r : option Z) :
  run_op o w = Ok r w' → wf w → ids_bounded w →
  (ids_unique w → ids_unique w') ∧ (owned_once w → owned_once w').
Proof.
  intros Hrun Hwf Hb. revert Hrun.
  destruct o as [m t| |nb m t|nb flt|nb nid m|nb nid t|d]; simpl.
  - unfold bind at 1. rewrite Note_init_run. unfold bind, get_note. simpl.
    rewrite lookup_insert_eq. simpl. intros [= <- <-]. split.
    + by apply (ids_unique_insert_new w _ (fresh (dom (note_heap w)))
                  (mkNote m t (today w) (last_id w + 1))).
    + by apply owned_once_same.
  - intros [= <- <-]. split.
    + intros Hu l1 l2 n1 n2. apply Hu.
    + by apply (owned_once_new_notebook w _ (fresh (dom (notebook_heap w)))).
  - unfold bind at 1. destruct (notebook_heap w !! nb) as [ns|] eqn:Hnb.
    + rewrite (new_note_run w nb ns) by done.
      unfold bind, get_notes, get_note.
      cbn [notebook_heap note_heap set_notebook_heap set_note_heap set_last_id].
      rewrite lookup_insert_eq, last_snoc.
      cbn [notebook_heap note_heap set_notebook_heap set_note_heap set_last_id].
      rewrite lookup_insert_eq. simpl. intros [= <- <-]. split.
      * by apply (ids_unique_insert_new w _ (fresh (dom (note_heap w)))
                    (mkNote m t (today w) (last_id w + 1))).
      * apply (owned_once_append w _ nb ns (fresh (dom (note_heap w)))); try done.
        intros nb' ns' Hnb'. by apply (fresh_note_unlisted w nb').
    + by rewrite new_note_stuck.
  - unfold bind. destruct (Notebook_search nb flt w) as [res w1|] eqn:Hs; [|done].
    intros [= <- <-]. by apply search_state in Hs as ->.
  - unfold bind. rewrite modify_memo_at.
    destruct (modify_at nb nid (with_memo m) w) as [[] w1|] eqn:Hm; [| |done].
    + intros [= <- <-]. apply modify_at_true_inv in Hm as (l & n & Hn & ->). split.
      * by apply (ids_unique_insert_same w _ l n (with_memo m n)).
      * by apply owned_once_same.
    + intros [= <- <-]. by apply modify_at_false_inv in Hm as ->.
  - unfold bind. rewrite modify_tags_at.
    destruct (modify_at nb nid (with_tags t) w) as [[] w1|] eqn:Hm; [| |done].
    + intros [= <- <-]. apply modify_at_true_inv in Hm as (l & n & Hn & ->). split.
      * by apply (ids_unique_insert_same w _ l n (with_tags t n)).
      * by apply owned_once_same.
    + intros [= <- <-]. by apply modify_at_false_inv in Hm as ->.
  - intros [= <- <-]. split; [intros Hu l1 l2 n1 n2; apply Hu|].
    by apply owned_once_same.
Qed.

Lemma run_op_inv (o : Op) (w w' : World) (r : option Z) :
  run_op o w = Ok r w' → store_inv w → store_inv w'.
Proof.
  intros Hrun (Hwf & Hb & Hu & Ho).
  destruct (run_op_post o w w' r Hrun) as (_ & _ & _ & Hb' & Hwf' & _).
  destruct (run_op_unique o w w' r Hrun Hwf Hb) as [Hu' Ho'].
  unfold store_inv. auto.
Qed.

Lemma run_ops_inv (ops : list Op) (w w' : World) (ids : list Z) :
  run_ops ops w = Ok ids w' → store_inv w → store_inv w'.
Proof.
  revert w ids. induction ops as [|o ops IH]; intros w ids; simpl.
  - by intros [= _ <-].
  - unfold bind at 1. destruct (run_op o w) as [r w1|] eqn:Ho; [|done].
    unfold bind at 1. destruct (run_ops ops w1) as [ids1 w2|] eqn:Hrest; [|done].
    intros [= _ <-] Hinv. apply (IH w1 ids1 Hrest). by apply (run_op_inv o w w1 r).
Qed.

Lemma store_inv_init (d : date) (lines : list string) : store_inv (init_world d lines).
Proof.
  unfold store_inv. split_and!.
  - intros nb ns H. simpl in H. by rewrite lookup_empty in H.
  - intros l n H. simpl in H. by rewrite lookup_empty in H.
  - intros l1 l2 n1 n2 H. simpl in H. by rewrite lookup_empty in H.
  - intros nb1 nb2 ns1 ns2 i j l H. simpl in H. by rewrite lookup_empty in H.
Qed.

(** X17: every sequence of operations on existing notebooks keeps what holds
    when the process starts: the lists of the notebooks refer to notes that
    exist, no id is beyond the counter, no two notes share an id and a note
    is in one notebook at most, once.  Hence no notebook lists a note twice
    and at most one of its notes answers to a given id. *)
Theorem store_invariants_kept (ops : list Op) (w : World) :
  store_inv w →
  ops_ok (dom (notebook_heap w)) ops = true →
  ∃ ids w', run_ops ops w = Ok ids w' ∧
    store_inv w' ∧
    (∀ nb ns, notebook_heap w' !! nb = Some ns →
       NoDup ns ∧
       ∀ note_id l1 l2, l1 ∈ ns → l2 ∈ ns →
         id_matches w' note_id l1 = true → id_matches w' note_id l2 = true →
         l1 = l2).
Proof.
  intros Hinv Hok. pose proof Hinv as (Hwf & _).
  destruct (run_ops_post ops w Hwf Hok) as (ids & w' & Hrun & _).
  exists ids, w'. split; [done|].
  pose proof (run_ops_inv ops w w' ids Hrun Hinv) as Hinv'.
  split; [done|]. destruct Hinv' as (_ & _ & Hu & Ho).
  intros nb ns Hnb. split.
  - apply NoDup_alt. intros i j l Hi Hj. by apply (Ho nb nb ns ns i j l).
  - intros note_id l1 l2 _ _ (n1 & Hn1 & Hid1)%id_matches_true
      (n2 & Hn2 & Hid2)%id_matches_true.
    apply (Hu l1 l2 n1 n2); [done..|]. apply (inj pretty). unfold str_int in *.
    congruence.
Qed.

Lemma store_invariants_kept_witness :
  store_inv (init_world demo_date []) ∧
  ops_ok (dom (notebook_heap (init_world demo_date []))) demo_ops = true ∧
  ∃ ids w', run_ops demo_ops (init_world demo_date []) = Ok ids w' ∧ store_inv w'.
Proof.
  split; [apply store_inv_init|]. split; [vm_compute; reflexivity|].
  destruct (store_invariants_kept demo_ops (init_world demo_date [])
              (store_inv_init demo_date [])) as (ids & w' & Hrun & Hinv & _).
  { vm_compute. reflexivity. }
  exists ids, w'. split; [exact Hrun | exact Hinv].
Defined.
